(** * agent-rule-sync: the agent invoker and the rule-file synchroniser

    A shallow embedding of [src/analyzer.ts] (the handler that turns the
    output of the external agent into an [AnalysisResult], and the fallback
    [parseRawOutput]), of [src/rules-manager.ts] ([convertToMDC],
    [needsUpdate], [generateFilename], [writeRules], [createSummary],
    [cleanupOldRules]) and of the fallback step of [generateRules] in
    [src/index.ts].

    Modelling conventions.
    - A JavaScript string is a [string] of 8-bit characters; on ASCII text
      the operations below coincide with the JavaScript ones.  White space
      is the ASCII part of the class [\s]: codes 9 to 13 and 32.
    - The rules directory is a flat directory of regular files: either
      missing, or an ordered list of (name, content) entries in the order
      [fs.readdirSync] lists them.  File names are matched exactly (a
      case-sensitive file system).
    - Paths are POSIX paths.  [path.join(rulesDir, name)] is the entry
      [name] of the directory when [name] holds no separator.  When it
      holds one, the joined path is either an entry of the directory after
      all (as for [./x] or [a/../x]), whose name is then the last component
      of [name], or a file elsewhere, which is not tracked; which of the
      two is a parameter [place] of the environment, as it depends on the
      path of the directory itself.
    - A [fs] call may raise: a fault oracle maps each operation to the
      message of the [Error] it throws, if any.
    - [new Date().toISOString()] is the argument [now] of the functions that
      read the clock.
    - Console output ([verbose]) is not modelled. *)

From Stdlib Require Import Strings.String Strings.Ascii Lists.List Bool.Bool.
From Stdlib Require Import Arith.PeanoNat Numbers.DecimalString Lia.
From Stdlib Require Import Sorting.Permutation.
Import ListNotations.
Local Open Scope list_scope.
Local Open Scope string_scope.

(* ================================================================= *)
(** ** JavaScript string primitives *)

Module JS.

Definition LF : string := String (ascii_of_nat 10) EmptyString.

(** The ASCII members of the regular-expression class [\s], which is also
    the set [String.prototype.trim] removes. *)
Definition isWhiteSpace (c : ascii) : bool :=
  let n := nat_of_ascii c in
  (((9 <=? n) && (n <=? 13)) || (n =? 32))%nat.

Definition toLowerChar (c : ascii) : ascii :=
  let n := nat_of_ascii c in
  if ((65 <=? n) && (n <=? 90))%nat then ascii_of_nat (n + 32) else c.

(** [s.toLowerCase()] *)
Fixpoint toLowerCase (s : string) : string :=
  match s with
  | EmptyString => EmptyString
  | String c r => String (toLowerChar c) (toLowerCase r)
  end.

Fixpoint trimStart (s : string) : string :=
  match s with
  | EmptyString => EmptyString
  | String c r => if isWhiteSpace c then trimStart r else s
  end.

Fixpoint trimEnd (s : string) : string :=
  match s with
  | EmptyString => EmptyString
  | String c r =>
      match trimEnd r with
      | EmptyString => if isWhiteSpace c then EmptyString else String c EmptyString
      | r' => String c r'
      end
  end.

(** [s.trim()] *)
Definition trim (s : string) : string := trimEnd (trimStart s).

(** [s.replace(/\s+/g, rep)]: every maximal run of white space becomes
    one copy of [rep]; it is emitted at the last character of the run. *)
Fixpoint replaceWhiteSpaceRuns (rep s : string) : string :=
  match s with
  | EmptyString => EmptyString
  | String c r =>
      if isWhiteSpace c then
        match r with
        | EmptyString => rep
        | String c' _ =>
            if isWhiteSpace c' then replaceWhiteSpaceRuns rep r
            else rep ++ replaceWhiteSpaceRuns rep r
        end
      else String c (replaceWhiteSpaceRuns rep r)
  end.

(** [s.endsWith(suffix)] *)
Fixpoint endsWith (s suffix : string) : bool :=
  (s =? suffix) ||
  match s with
  | EmptyString => false
  | String _ r => endsWith r suffix
  end.

(** [String(n)] for a non-negative integer. *)
Definition ofNat (n : nat) : string := NilZero.string_of_uint (Nat.to_uint n).

Definition ofBool (b : bool) : string := if b then "true" else "false".

(** [a || b] on strings: the empty string is falsy. *)
Definition orElse (a : option string) (b : string) : string :=
  match a with
  | Some (String c r) => String c r
  | _ => b
  end.

(** Does the character occur in the string? *)
Fixpoint occurs (c : ascii) (s : string) : bool :=
  match s with
  | EmptyString => false
  | String x r => Ascii.eqb x c || occurs c r
  end.

(** The last component of a path: the text after its last separator. *)
Fixpoint lastSegment (s : string) : string :=
  match s with
  | EmptyString => EmptyString
  | String x r =>
      if occurs "/" r then lastSegment r
      else if Ascii.eqb x "/" then r else s
  end.

(** Does the string hold a white-space character? *)
Fixpoint occursWhiteSpace (s : string) : bool :=
  match s with
  | EmptyString => false
  | String x r => isWhiteSpace x || occursWhiteSpace r
  end.

(** The longest prefix of [s] that ends with the character [c]. *)
Fixpoint uptoLast (c : ascii) (s : string) : option string :=
  match s with
  | EmptyString => None
  | String x r =>
      match uptoLast c r with
      | Some p => Some (String x p)
      | None => if Ascii.eqb x c then Some (String x EmptyString) else None
      end
  end.

(** The suffix of [s] that starts at the first occurrence of [c]. *)
Fixpoint fromFirst (c : ascii) (s : string) : option string :=
  match s with
  | EmptyString => None
  | String x r => if Ascii.eqb x c then Some s else fromFirst c r
  end.

(** [s.match(/\{[\s\S]*\}/)]: the match starts at the leftmost brace that
    opens and, the star being greedy, runs to the last closing brace of
    the string; [None] is JavaScript's [null]. *)
Definition matchObject (s : string) : option string :=
  match fromFirst "{" s with
  | Some t => uptoLast "}" t
  | None => None
  end.

End JS.

(* ================================================================= *)
(** ** JSON values and a reference [JSON.parse] *)

#[local] Set Warnings "-register-all".

Inductive json : Type :=
| JNull
| JBool (b : bool)
| JNumber (lexeme : string)
| JString (s : string)
| JArray (items : list json)
| JObject (fields : list (string * json)).

Module Json.

(** Own property lookup: [o[k]], [None] standing for [undefined]. *)
Fixpoint get (k : string) (fields : list (string * json)) : option json :=
  match fields with
  | [] => None
  | (k', v) :: rest => if (k' =? k)%string then Some v else get k rest
  end.

(** Defining a property: a repeated key keeps its place and takes the
    later value. *)
Fixpoint set (k : string) (v : json) (fields : list (string * json))
  : list (string * json) :=
  match fields with
  | [] => [(k, v)]
  | (k', v') :: rest =>
      if (k' =? k)%string then (k', v) :: rest else (k', v') :: set k v rest
  end.

Definition isWs (c : ascii) : bool :=
  let n := nat_of_ascii c in
  ((n =? 32) || (n =? 9) || (n =? 10) || (n =? 13))%nat.

Definition isDigit (c : ascii) : bool :=
  let n := nat_of_ascii c in ((48 <=? n) && (n <=? 57))%nat.

Fixpoint skipWs (s : string) : string :=
  match s with
  | EmptyString => EmptyString
  | String c r => if isWs c then skipWs r else s
  end.

Fixpoint spanDigits (s : string) : string * string :=
  match s with
  | EmptyString => (EmptyString, EmptyString)
  | String c r =>
      if isDigit c then let (d, rest) := spanDigits r in (String c d, rest)
      else (EmptyString, s)
  end.

Definition hexVal (c : ascii) : option nat :=
  let n := nat_of_ascii c in
  if ((48 <=? n) && (n <=? 57))%nat then Some (n - 48)
  else if ((65 <=? n) && (n <=? 70))%nat then Some (n - 55)
  else if ((97 <=? n) && (n <=? 102))%nat then Some (n - 87)
  else None.

Definition quote : ascii := ascii_of_nat 34.

Definition unescape (c : ascii) : option ascii :=
  if Ascii.eqb c quote then Some quote else
  match c with
  | "\"%char => Some "\"%char
  | "/"%char => Some "/"%char
  | "b"%char => Some (ascii_of_nat 8)
  | "f"%char => Some (ascii_of_nat 12)
  | "n"%char => Some (ascii_of_nat 10)
  | "r"%char => Some (ascii_of_nat 13)
  | "t"%char => Some (ascii_of_nat 9)
  | _ => None
  end.

(** The characters of a string literal after its opening quote.  Escapes
    [\uXXXX] are read in the ASCII range only. *)
Fixpoint parseChars (s : string) : option (string * string) :=
  match s with
  | EmptyString => None
  | String c r =>
      if Ascii.eqb c quote then Some (EmptyString, r)
      else if Ascii.eqb c "\" then
        match r with
        | String "u" (String h1 (String h2 (String h3 (String h4 r')))) =>
            match hexVal h1, hexVal h2, hexVal h3, hexVal h4 with
            | Some 0, Some 0, Some a, Some b =>
                if (a <? 8)%nat then
                  match parseChars r' with
                  | Some (body, rest) =>
                      Some (String (ascii_of_nat (16 * a + b)) body, rest)
                  | None => None
                  end
                else None
            | _, _, _, _ => None
            end
        | String e r' =>
            match unescape e, parseChars r' with
            | Some x, Some (body, rest) => Some (String x body, rest)
            | _, _ => None
            end
        | EmptyString => None
        end
      else if (nat_of_ascii c <? 32)%nat then None
      else
        match parseChars r with
        | Some (body, rest) => Some (String c body, rest)
        | None => None
        end
  end.

Definition parseFraction (s : string) : option (string * string) :=
  match s with
  | String "." r =>
      match spanDigits r with
      | (EmptyString, _) => None
      | (d, rest) => Some (String "." d, rest)
      end
  | _ => Some (EmptyString, s)
  end.

Definition parseExponent (s : string) : option (string * string) :=
  let digits (mark : string) (r : string) :=
    match spanDigits r with
    | (EmptyString, _) => None
    | (d, rest) => Some (mark ++ d, rest)
    end in
  match s with
  | String e r =>
      if Ascii.eqb e "e" || Ascii.eqb e "E" then
        match r with
        | String "+" r' => digits (String e "+") r'
        | String "-" r' => digits (String e "-") r'
        | _ => digits (String e EmptyString) r
        end
      else Some (EmptyString, s)
  | EmptyString => Some (EmptyString, s)
  end.

Definition parseNumber (s : string) : option (string * string) :=
  let (sign, s1) :=
    match s with
    | String "-" r => ("-", r)
    | _ => (EmptyString, s)
    end in
  let int :=
    match s1 with
    | String "0" r => Some ("0", r)
    | _ => match spanDigits s1 with
           | (EmptyString, _) => None
           | (d, rest) => Some (d, rest)
           end
    end in
  match int with
  | None => None
  | Some (i, s2) =>
      match parseFraction s2 with
      | None => None
      | Some (f, s3) =>
          match parseExponent s3 with
          | None => None
          | Some (e, s4) => Some (sign ++ i ++ f ++ e, s4)
          end
      end
  end.

Definition literal (word : string) (v : json) (s : string)
  : option (json * string) :=
  if prefix word s
  then Some (v, substring (String.length word)
                          (String.length s - String.length word) s)
  else None.

Fixpoint parseValue (fuel : nat) (s : string) {struct fuel}
  : option (json * string) :=
  match fuel with
  | O => None
  | S fuel' =>
      match skipWs s with
      | EmptyString => None
      | String c r =>
          if Ascii.eqb c "{" then
            match skipWs r with
            | String "}" r' => Some (JObject [], r')
            | _ =>
                match parseMembers fuel' r [] with
                | Some (fs, rest) => Some (JObject fs, rest)
                | None => None
                end
            end
          else if Ascii.eqb c "[" then
            match skipWs r with
            | String "]" r' => Some (JArray [], r')
            | _ =>
                match parseElements fuel' r [] with
                | Some (vs, rest) => Some (JArray vs, rest)
                | None => None
                end
            end
          else if Ascii.eqb c quote then
            match parseChars r with
            | Some (str, rest) => Some (JString str, rest)
            | None => None
            end
          else if Ascii.eqb c "t" then literal "true" (JBool true) (String c r)
          else if Ascii.eqb c "f" then literal "false" (JBool false) (String c r)
          else if Ascii.eqb c "n" then literal "null" JNull (String c r)
          else
            match parseNumber (String c r) with
            | Some (lexeme, rest) => Some (JNumber lexeme, rest)
            | None => None
            end
      end
  end
with parseElements (fuel : nat) (s : string) (acc : list json) {struct fuel}
  : option (list json * string) :=
  match fuel with
  | O => None
  | S fuel' =>
      match parseValue fuel' s with
      | Some (v, r) =>
          match skipWs r with
          | String "," r' => parseElements fuel' r' (acc ++ [v])%list
          | String "]" r' => Some ((acc ++ [v])%list, r')
          | _ => None
          end
      | None => None
      end
  end
with parseMembers (fuel : nat) (s : string) (acc : list (string * json))
                  {struct fuel} : option (list (string * json) * string) :=
  match fuel with
  | O => None
  | S fuel' =>
      match skipWs s with
      | String q r =>
          if negb (Ascii.eqb q quote) then None else
          match parseChars r with
          | Some (k, r1) =>
              match skipWs r1 with
              | String ":" r2 =>
                  match parseValue fuel' r2 with
                  | Some (v, r3) =>
                      match skipWs r3 with
                      | String "," r4 => parseMembers fuel' r4 (set k v acc)
                      | String "}" r4 => Some (set k v acc, r4)
                      | _ => None
                      end
                  | None => None
                  end
              | _ => None
              end
          | None => None
          end
      | EmptyString => None
      end
  end.

(** [JSON.parse(text)] on the ASCII fragment of the JSON grammar; [inr]
    carries the message of the [SyntaxError], whose wording belongs to the
    engine and is one fixed text here. *)
Definition parse (text : string) : json + string :=
  match parseValue (2 * String.length text + 2) text with
  | Some (v, rest) =>
      match skipWs rest with
      | EmptyString => inl v
      | _ => inr "Unexpected non-whitespace character after JSON"
      end
  | None => inr "Unexpected token in JSON"
  end.

Definition hexDigit (n : nat) : ascii :=
  if (n <? 10)%nat then ascii_of_nat (48 + n) else ascii_of_nat (87 + n).

(** [JSON.stringify] of a string: the quoted literal with its escapes. *)
Fixpoint escapeChars (s : string) : string :=
  match s with
  | EmptyString => EmptyString
  | String c r =>
      let n := nat_of_ascii c in
      (if Ascii.eqb c quote then String "\" (String quote EmptyString)
       else if Ascii.eqb c "\" then "\\"
       else if (n =? 8)%nat then "\b"
       else if (n =? 12)%nat then "\f"
       else if (n =? 10)%nat then "\n"
       else if (n =? 13)%nat then "\r"
       else if (n =? 9)%nat then "\t"
       else if (n <? 32)%nat then
         "\u00" ++ String (hexDigit (n / 16)) (String (hexDigit (n mod 16)) EmptyString)
       else String c EmptyString) ++ escapeChars r
  end.

Definition stringifyString (s : string) : string :=
  String quote (escapeChars s) ++ String quote EmptyString.

(** [JSON.stringify] of an array of strings. *)
Definition stringifyStrings (l : list string) : string :=
  "[" ++ String.concat "," (map stringifyString l) ++ "]".

End Json.

(* ================================================================= *)
(** ** [src/types.ts] *)

Module Rule.
Record t : Type := mk {
  name : string;
  description : string;
  examples : option (list string);
  category : option string
}.
End Rule.

Inductive RuleType : Type := always | auto_attached | agent_requested | manual.

Module RuleCategory.
Record t : Type := mk {
  title : string;
  description : option string;
  rules : list Rule.t;
  globs : option (list string);
  alwaysApply : option bool;
  ruleType : option RuleType
}.
End RuleCategory.

(** An [AnalysisData] object as [Object.entries] enumerates it; a key may
    be bound to [undefined]. *)
Definition AnalysisData : Type := list (string * option RuleCategory.t).

Module RulesManagerResult.
Record t : Type := mk {
  success : bool;
  created : list string;
  updated : list string;
  unchanged : list string;
  error : option string
}.
End RulesManagerResult.

(** [path] is [path.join(rulesDir, filename)] and is left out. *)
Module ExistingRuleFile.
Record t : Type := mk {
  filename : string;
  content : string
}.
End ExistingRuleFile.

(* ================================================================= *)
(** ** [src/analyzer.ts] *)

Module AnalysisResult.
Record t (D : Type) : Type := mk {
  success : bool;
  data : option D;
  error : option string;
  rawOutput : option string
}.
Arguments mk {D} _ _ _ _.
Arguments success {D} _.
Arguments data {D} _.
Arguments error {D} _.
Arguments rawOutput {D} _.
End AnalysisResult.

Module CursorAgentCheck.
Record t : Type := mk {
  installed : bool;
  version : option string;
  error : option string
}.
End CursorAgentCheck.

Module Analyzer.

(** [String(code)] for the exit code of the [close] event, which is
    [null] when a signal ended the child. *)
Definition showCode (code : option nat) : string :=
  match code with
  | Some n => JS.ofNat n
  | None => "null"
  end.

Definition isZero (code : option nat) : bool :=
  match code with
  | Some O => true
  | _ => false
  end.

Section WithParser.

(** [JSON.parse]: the parsed value, or the message of the [SyntaxError]
    it throws. *)
Variable JSON_parse : string -> json + string.

Definition failed (msg stdout : string) : AnalysisResult.t json :=
  AnalysisResult.mk false None (Some msg) (Some stdout).

Definition parseFailure (msg stdout : string) : AnalysisResult.t json :=
  failed ("Failed to parse cursor-agent output as JSON: " ++ msg) stdout.

(** Lines 254-265: the value [parsed] holds after the wrapper check.
    [typeof parsed === 'object' && parsed !== null && 'result' in parsed]
    holds of an object with a [result] key; an array has no such key. *)
Definition unwrapResult (parsed : json) : json + string :=
  match parsed with
  | JObject fields =>
      match Json.get "result" fields with
      | Some (JString result) =>
          match JS.matchObject result with
          | Some resultMatch => JSON_parse resultMatch
          | None => inl parsed
          end
      | _ => inl parsed
      end
  | _ => inl parsed
  end.

(** What the promise of [analyzeCodebase] resolves with when the child
    closes with [code], having written [stdout] and [stderr]. *)
Definition analyzeCodebase (code : option nat) (stdout stderr : string)
  : AnalysisResult.t json :=
  if negb (isZero code) then
    failed ("cursor-agent exited with code " ++ showCode code ++ ": " ++ stderr)
           stdout
  else
    match JS.matchObject stdout with
    | None => failed "No JSON found in cursor-agent output" stdout
    | Some jsonMatch =>
        match JSON_parse jsonMatch with
        | inr msg => parseFailure msg stdout
        | inl parsed =>
            match unwrapResult parsed with
            | inr msg => parseFailure msg stdout
            | inl data =>
                AnalysisResult.mk true (Some data) None (Some stdout)
            end
        end
    end.

End WithParser.

(** The extraction as the specification words it: scan from the first
    opening brace, count nesting, stop where the count returns to zero.
    [depth] is the number of braces open so far. *)
Fixpoint balancedPrefix (depth : nat) (s : string) : option string :=
  match s with
  | EmptyString => None
  | String c r =>
      if Ascii.eqb c "{" then
        option_map (String c) (balancedPrefix (S depth) r)
      else if Ascii.eqb c "}" then
        match depth with
        | O => None
        | S O => Some (String c EmptyString)
        | S d => option_map (String c) (balancedPrefix d r)
        end
      else option_map (String c) (balancedPrefix depth r)
  end.

Definition firstBalancedObject (s : string) : option string :=
  match JS.fromFirst "{" s with
  | Some t => balancedPrefix 0 t
  | None => None
  end.

(** Test inputs are written with apostrophes for the double quotes. *)
Fixpoint dq (s : string) : string :=
  match s with
  | EmptyString => EmptyString
  | String c r => String (if Ascii.eqb c "'" then Json.quote else c) (dq r)
  end.

(** [parseRawOutput]: the five conventional categories, the raw text as
    the one rule of [codePatterns]. *)
Definition parseRawOutput (rawOutput : string) : option AnalysisData :=
  let empty (title : string) :=
    RuleCategory.mk title (Some "Extracted from raw output") [] None None None in
  let data : AnalysisData :=
    [ ("codePatterns", Some (empty "Code Patterns & Style"));
      ("frameworks", Some (empty "Frameworks & Libraries"));
      ("structure", Some (empty "Project Structure"));
      ("conventions", Some (empty "Coding Conventions"));
      ("bestPractices", Some (empty "Best Practices")) ] in
  let push (entry : string * option RuleCategory.t) :=
    match entry with
    | (key, Some c) =>
        if key =? "codePatterns" then
          (key, Some (RuleCategory.mk
                        (RuleCategory.title c) (RuleCategory.description c)
                        (RuleCategory.rules c ++
                           [Rule.mk "Analysis Output" rawOutput None None])%list
                        (RuleCategory.globs c) (RuleCategory.alwaysApply c)
                        (RuleCategory.ruleType c)))
        else entry
    | _ => entry
    end in
  Some (map push data).

(** [checkCursorAgent]: what its promise resolves with when the child
    closes with [code], having written [output] and [errorOutput].  The
    test [output.trim()] holds of a trimmed text that is not empty. *)
Definition checkCursorAgent (code : option nat) (output errorOutput : string)
  : CursorAgentCheck.t :=
  if isZero code && negb (JS.trim output =? EmptyString) then
    CursorAgentCheck.mk true (Some (JS.trim output)) None
  else
    CursorAgentCheck.mk false None
      (Some (JS.orElse (Some errorOutput) "cursor-agent command not found")).

(** [analyzeCodebase] when the child cannot be started: no raw output. *)
Definition analyzeCodebaseError {D : Type} (message : string) : AnalysisResult.t D :=
  AnalysisResult.mk false None
    (Some ("Failed to execute cursor-agent: " ++ message)) None.

End Analyzer.

(* ================================================================= *)
(** ** The rules directory *)

Module Fs.

Definition Dir : Type := list (string * string).

Definition names (d : Dir) : list string := map fst d.

Fixpoint lookup (name : string) (d : Dir) : option string :=
  match d with
  | [] => None
  | (n, c) :: rest => if n =? name then Some c else lookup name rest
  end.

(** Writing a file replaces the content of the entry of that name, or adds
    an entry. *)
Fixpoint write (name content : string) (d : Dir) : Dir :=
  match d with
  | [] => [(name, content)]
  | (n, c) :: rest =>
      if n =? name then (n, content) :: rest
      else (n, c) :: write name content rest
  end.

Fixpoint remove (name : string) (d : Dir) : Dir :=
  match d with
  | [] => []
  | (n, c) :: rest => if n =? name then rest else (n, c) :: remove name rest
  end.

Inductive Op : Type :=
| mkdir
| readdir
| readFile (name : string)
| writeFile (name : string)
| unlink (name : string).

(** The message of the [Error] an operation throws, if it throws. *)
Definition Faults : Type := Op -> option string.

Definition noFaults : Faults := fun _ => None.

Definition ENOENT : string := "ENOENT: no such file or directory".

(** Where the paths that hold a separator lead: [true] for a name whose
    path, joined to that of the directory, is an entry of the directory. *)
Definition Place : Type := string -> bool.

(** The components of a path. *)
Fixpoint segments (s : string) : list string :=
  match s with
  | EmptyString => [EmptyString]
  | String x r =>
      if Ascii.eqb x "/" then EmptyString :: segments r
      else
        match segments r with
        | seg :: rest => String x seg :: rest
        | [] => [String x EmptyString]
        end
  end.

(** One step of [path.normalize] below the directory: the components
    walked into so far, innermost first, or [None] once the path has left
    the directory. *)
Definition walk (below : option (list string)) (seg : string) : option (list string) :=
  match below with
  | None => None
  | Some stack =>
      if (seg =? EmptyString) || (seg =? ".") then Some stack
      else if seg =? ".." then
        match stack with
        | [] => None
        | _ :: rest => Some rest
        end
      else Some (seg :: stack)
  end.

(** The placement of a directory no path re-enters from above: a name is
    an entry exactly when its normal form is one component. *)
Definition lexical : Place := fun name =>
  match fold_left walk (segments name) (Some []) with
  | Some [_] => true
  | _ => false
  end.

End Fs.

(** The mutable state of one pass: the directory and the [result] object
    that [writeRules] fills in place. *)
Record Store : Type := mkStore {
  disk : option Fs.Dir;
  result : RulesManagerResult.t
}.

(** A computation returns a value or throws the message of an [Error];
    either way it leaves a store behind. *)
Definition M (A : Type) : Type := Store -> (A + string) * Store.

Definition ret {A : Type} (a : A) : M A := fun st => (inl a, st).

Definition throw {A : Type} (msg : string) : M A := fun st => (inr msg, st).

Definition bind {A B : Type} (m : M A) (k : A -> M B) : M B :=
  fun st =>
    match m st with
    | (inl a, st') => k a st'
    | (inr msg, st') => (inr msg, st')
    end.

Declare Scope monad_scope.
Delimit Scope monad_scope with monad.
Notation "x <- m ;; k" := (bind m (fun x => k))
  (at level 61, m at next level, right associativity) : monad_scope.
Notation "m ;; k" := (bind m (fun _ => k))
  (at level 61, right associativity) : monad_scope.
Local Open Scope monad_scope.

(** [if (!dryRun) { m }] *)
Definition unless (dryRun : bool) (m : M unit) : M unit :=
  if dryRun then ret tt else m.

(* ================================================================= *)
(** ** [src/rules-manager.ts] *)

Module RulesManager.

Import RulesManagerResult.

Definition getResult : M RulesManagerResult.t :=
  fun st => (inl (result st), st).

(** [result.created.push(f)] and its two siblings. *)
Definition pushCreated (f : string) : M unit :=
  fun st =>
    let r := result st in
    (inl tt, mkStore (disk st)
               (mk (success r) (created r ++ [f])%list (updated r) (unchanged r) (error r))).

Definition pushUpdated (f : string) : M unit :=
  fun st =>
    let r := result st in
    (inl tt, mkStore (disk st)
               (mk (success r) (created r) (updated r ++ [f])%list (unchanged r) (error r))).

Definition pushUnchanged (f : string) : M unit :=
  fun st =>
    let r := result st in
    (inl tt, mkStore (disk st)
               (mk (success r) (created r) (updated r) (unchanged r ++ [f])%list (error r))).

Section WithFaults.

Variable fault : Fs.Faults.

(** For a name that holds a separator: is [path.join(rulesDir, name)] an
    entry of the rules directory? *)
Variable place : Fs.Place.

Definition raising {A : Type} (op : Fs.Op) (m : M A) : M A :=
  match fault op with
  | Some msg => throw msg
  | None => m
  end.

Definition existsSync : M bool :=
  fun st => (inl (match disk st with Some _ => true | None => false end), st).

(** [fs.mkdirSync(rulesDir, { recursive: true })] *)
Definition mkdirSync : M unit :=
  raising Fs.mkdir
    (fun st =>
       match disk st with
       | Some _ => (inl tt, st)
       | None => (inl tt, mkStore (Some []) (result st))
       end).

Definition readdirSync : M (list string) :=
  raising Fs.readdir
    (fun st =>
       match disk st with
       | Some d => (inl (Fs.names d), st)
       | None => (inr Fs.ENOENT, st)
       end).

Definition readFileSync (name : string) : M string :=
  raising (Fs.readFile name)
    (fun st =>
       match disk st with
       | Some d =>
           match Fs.lookup name d with
           | Some c => (inl c, st)
           | None => (inr Fs.ENOENT, st)
           end
       | None => (inr Fs.ENOENT, st)
       end).

(** Does [path.join(rulesDir, name)] denote an entry of the directory? *)
Definition inRulesDir (name : string) : bool :=
  if JS.occurs "/" name then place name else true.

(** [fs.writeFileSync(path.join(rulesDir, name), content, 'utf-8')]: the
    file written is the entry named by the last component of [name], or a
    file outside the directory. *)
Definition writeFileSync (name content : string) : M unit :=
  raising (Fs.writeFile name)
    (fun st =>
       if inRulesDir name then
         match disk st with
         | Some d =>
             (inl tt, mkStore (Some (Fs.write (JS.lastSegment name) content d)) (result st))
         | None => (inr Fs.ENOENT, st)
         end
       else (inl tt, st)).

Definition unlinkSync (name : string) : M unit :=
  raising (Fs.unlink name)
    (fun st =>
       match disk st with
       | Some d =>
           match Fs.lookup name d with
           | Some _ => (inl tt, mkStore (Some (Fs.remove name d)) (result st))
           | None => (inr Fs.ENOENT, st)
           end
       | None => (inr Fs.ENOENT, st)
       end).

Definition ensureRulesDirectory : M unit :=
  e <- existsSync ;;
  if negb e then mkdirSync else ret tt.

(** The three recognised extensions. *)
Definition isRuleFile (file : string) : bool :=
  JS.endsWith file ".mdc" || JS.endsWith file ".md" || JS.endsWith file ".txt".

Fixpoint readRuleFiles (files : list string) (ruleFiles : list ExistingRuleFile.t)
  : M (list ExistingRuleFile.t) :=
  match files with
  | [] => ret ruleFiles
  | file :: rest =>
      if isRuleFile file then
        content <- readFileSync file ;;
        readRuleFiles rest (ruleFiles ++ [ExistingRuleFile.mk file content])%list
      else readRuleFiles rest ruleFiles
  end.

Definition readExistingRules : M (list ExistingRuleFile.t) :=
  e <- existsSync ;;
  if negb e then ret []
  else files <- readdirSync ;; readRuleFiles files [].

(** The value of [alwaysApply] in [convertToMDC]. *)
Definition alwaysApplyFlag (categoryName : string) (category : RuleCategory.t) : bool :=
  match RuleCategory.alwaysApply category with
  | Some b => b
  | None =>
      match RuleCategory.ruleType category with
      | Some always => true
      | _ => (categoryName =? "bestPractices") || (categoryName =? "conventions")
      end
  end.

Definition renderRule (rule : Rule.t) : string :=
  "- **" ++ Rule.name rule ++ "**: " ++ Rule.description rule ++ JS.LF ++
  match Rule.examples rule with
  | Some examples =>
      String.concat EmptyString (map (fun example => "  - " ++ example ++ JS.LF) examples)
  | None => EmptyString
  end ++ JS.LF.

Definition convertToMDC (categoryName : string) (category : RuleCategory.t) : string :=
  "---" ++ JS.LF ++
  "description: " ++
    JS.orElse (RuleCategory.description category) (RuleCategory.title category) ++ JS.LF ++
  match RuleCategory.globs category with
  | Some (g :: gs) => "globs: " ++ Json.stringifyStrings (g :: gs) ++ JS.LF
  | _ => EmptyString
  end ++
  "alwaysApply: " ++ JS.ofBool (alwaysApplyFlag categoryName category) ++ JS.LF ++
  "---" ++ JS.LF ++ JS.LF ++
  String.concat EmptyString (map renderRule (RuleCategory.rules category)).

Definition normalize (s : string) : string :=
  JS.replaceWhiteSpaceRuns " " (JS.trim s).

Definition needsUpdate (existingContent newContent : string) : bool :=
  negb (normalize existingContent =? normalize newContent).

Definition generateFilename (categoryName : string) : string :=
  JS.replaceWhiteSpaceRuns "-" (JS.toLowerCase categoryName) ++ ".mdc".

(** [!category || !category.rules || category.rules.length === 0] *)
Definition skipped (category : option RuleCategory.t) : bool :=
  match category with
  | None => true
  | Some c => (List.length (RuleCategory.rules c) =? 0)%nat
  end.

Definition summaryLine (categoryName : string) (category : RuleCategory.t) : string :=
  "- [" ++ RuleCategory.title category ++ "](./" ++ generateFilename categoryName ++ ") - " ++
  JS.orElse (RuleCategory.description category)
            ("Rules for " ++ RuleCategory.title category) ++
  " (" ++ JS.ofNat (List.length (RuleCategory.rules category)) ++ " rules)" ++ JS.LF.

Fixpoint summaryLines (entries : AnalysisData) : string :=
  match entries with
  | [] => EmptyString
  | (categoryName, category) :: rest =>
      match category with
      | Some c =>
          if skipped category then summaryLines rest
          else summaryLine categoryName c ++ summaryLines rest
      | None => summaryLines rest
      end
  end.

Definition createSummary (analysisData : AnalysisData) (now : string) : string :=
  "# Cursor Rules - Auto Generated" ++ JS.LF ++ JS.LF ++
  "This directory contains automatically generated rules for this codebase." ++ JS.LF ++ JS.LF ++
  "## Rule Categories" ++ JS.LF ++ JS.LF ++
  summaryLines analysisData ++
  JS.LF ++ "---" ++ JS.LF ++ JS.LF ++
  "Generated on: " ++ now ++ JS.LF ++
  "Generator: agent-rule-sync" ++ JS.LF.

Definition lowerIn (file : string) (lowered : list string) : bool :=
  existsb (String.eqb (JS.toLowerCase file)) lowered.

Fixpoint removeOld (keepFilesSet : list string) (dryRun : bool)
                   (existingFiles : list string) (removed : list string)
  : M (list string) :=
  match existingFiles with
  | [] => ret removed
  | file :: rest =>
      if negb (lowerIn file keepFilesSet) && isRuleFile file then
        unless dryRun (unlinkSync file) ;;
        removeOld keepFilesSet dryRun rest (removed ++ [file])%list
      else removeOld keepFilesSet dryRun rest removed
  end.

Definition cleanupOldRules (keepFiles : list string) (dryRun : bool) : M (list string) :=
  e <- existsSync ;;
  if negb e then ret []
  else
    existingFiles <- readdirSync ;;
    removeOld (map JS.toLowerCase keepFiles) dryRun existingFiles [].

(** [existingRules.find(r => r.filename.toLowerCase() === name.toLowerCase())] *)
Definition findExisting (existingRules : list ExistingRuleFile.t) (name : string)
  : option ExistingRuleFile.t :=
  find (fun r => JS.toLowerCase (ExistingRuleFile.filename r) =? JS.toLowerCase name)
       existingRules.

(** One turn of the loop over [Object.entries(analysisData)]. *)
Definition processCategory (dryRun : bool) (existingRules : list ExistingRuleFile.t)
           (entry : string * option RuleCategory.t) : M unit :=
  let (categoryName, category) := entry in
  match category with
  | None => ret tt
  | Some c =>
      if skipped category then ret tt
      else
        let filename := generateFilename categoryName in
        let mdc := convertToMDC categoryName c in
        match findExisting existingRules filename with
        | Some existingFile =>
            if needsUpdate (ExistingRuleFile.content existingFile) mdc then
              unless dryRun (writeFileSync filename mdc) ;;
              pushUpdated filename
            else pushUnchanged filename
        | None =>
            unless dryRun (writeFileSync filename mdc) ;;
            pushCreated filename
        end
  end.

Fixpoint forEach {A : Type} (body : A -> M unit) (xs : list A) : M unit :=
  match xs with
  | [] => ret tt
  | x :: rest => body x ;; forEach body rest
  end.

Definition summaryFilename : string := "README.md".

Definition writeSummary (dryRun : bool) (existingRules : list ExistingRuleFile.t)
           (summary : string) : M unit :=
  let existingFilenames :=
    map (fun r => JS.toLowerCase (ExistingRuleFile.filename r)) existingRules in
  if negb (existsb (String.eqb (JS.toLowerCase summaryFilename)) existingFilenames) then
    unless dryRun (writeFileSync summaryFilename summary) ;;
    pushCreated summaryFilename
  else
    match findExisting existingRules summaryFilename with
    | Some existingFile =>
        if needsUpdate (ExistingRuleFile.content existingFile) summary then
          unless dryRun (writeFileSync summaryFilename summary) ;;
          pushUpdated summaryFilename
        else
          r <- getResult ;;
          if negb (existsb (String.eqb summaryFilename) (unchanged r))
          then pushUnchanged summaryFilename else ret tt
    | None =>
        r <- getResult ;;
        if negb (existsb (String.eqb summaryFilename) (unchanged r))
        then pushUnchanged summaryFilename else ret tt
    end.

(** The body of the [try] block of [writeRules]. *)
Definition writeRulesTry (analysisData : AnalysisData) (dryRun : bool) (now : string)
  : M RulesManagerResult.t :=
  unless dryRun ensureRulesDirectory ;;
  existingRules <- readExistingRules ;;
  forEach (processCategory dryRun existingRules) analysisData ;;
  writeSummary dryRun existingRules (createSummary analysisData now) ;;
  r <- getResult ;;
  _ <- cleanupOldRules (created r ++ updated r ++ unchanged r)%list dryRun ;;
  getResult.

Definition freshResult : RulesManagerResult.t := mk true [] [] [] None.

Definition failure (msg : string) : RulesManagerResult.t :=
  mk false [] [] [] (Some msg).

(** [writeRules]: the result it returns and the directory it leaves. *)
Definition writeRules (analysisData : AnalysisData) (dryRun : bool) (now : string)
           (rulesDir : option Fs.Dir) : RulesManagerResult.t * option Fs.Dir :=
  match writeRulesTry analysisData dryRun now (mkStore rulesDir freshResult) with
  | (inl r, st) => (r, disk st)
  | (inr msg, st) => (failure msg, disk st)
  end.

End WithFaults.

End RulesManager.

(* ================================================================= *)
(** ** [src/index.ts]: the orchestrator after the agent has answered *)

Module Index.

Section WithFaults.

Variable fault : Fs.Faults.
Variable place : Fs.Place.

Definition failed (msg : string) : RulesManagerResult.t :=
  RulesManagerResult.mk false [] [] [] (Some msg).

(** Lines 143-160: the raw output, when truthy, is structured by
    [parseRawOutput] and the result is marked successful. *)
Definition fallback (analysisResult : AnalysisResult.t AnalysisData)
  : AnalysisResult.t AnalysisData :=
  if negb (AnalysisResult.success analysisResult) then
    match AnalysisResult.rawOutput analysisResult with
    | Some (String c r) =>
        match Analyzer.parseRawOutput (String c r) with
        | Some parsedData =>
            AnalysisResult.mk true (Some parsedData)
              (AnalysisResult.error analysisResult)
              (AnalysisResult.rawOutput analysisResult)
        | None => analysisResult
        end
    | _ => analysisResult
    end
  else analysisResult.

(** [generateRules], given what [checkCursorAgent] and [analyzeCodebase]
    resolved with. *)
Definition generateRules (installed : bool)
           (analysisResult : AnalysisResult.t AnalysisData)
           (dryRun : bool) (now : string) (rulesDir : option Fs.Dir)
  : RulesManagerResult.t * option Fs.Dir :=
  if negb installed then
    (failed "cursor-agent is not installed or not accessible in PATH", rulesDir)
  else
    let analysisResult := fallback analysisResult in
    if negb (AnalysisResult.success analysisResult) then
      (failed (JS.orElse (AnalysisResult.error analysisResult) "Analysis failed"),
       rulesDir)
    else
      match AnalysisResult.data analysisResult with
      | None => (failed "No analysis data returned", rulesDir)
      | Some data => RulesManager.writeRules fault place data dryRun now rulesDir
      end.

End WithFaults.

End Index.

(* ================================================================= *)
(** ** The pass read as functions of the directory

    These definitions restate what one pass records and stores, so that the
    properties of [writeRules] can be stated and proved against them. *)

Module Pure.

Import RulesManager RulesManagerResult.

(** The text with all white space taken out: normalisation keeps it. *)
Fixpoint strip (s : string) : string :=
  match s with
  | EmptyString => EmptyString
  | String c r => if JS.isWhiteSpace c then strip r else String c (strip r)
  end.

Definition dirOf (rulesDir : option Fs.Dir) : Fs.Dir :=
  match rulesDir with
  | Some D => D
  | None => []
  end.

Definition contentOf (D : Fs.Dir) (name : string) : string :=
  match Fs.lookup name D with
  | Some c => c
  | None => EmptyString
  end.

(** What [readExistingRules] returns on the directory [D]. *)
Definition snapshot (D : Fs.Dir) : list ExistingRuleFile.t :=
  map (fun n => ExistingRuleFile.mk n (contentOf D n)) (filter isRuleFile (Fs.names D)).

Inductive Outcome : Type := Created | Updated | Unchanged.

Definition push (o : Outcome) (f : string) (r : RulesManagerResult.t)
  : RulesManagerResult.t :=
  match o with
  | Created => mk (success r) (created r ++ [f])%list (updated r) (unchanged r) (error r)
  | Updated => mk (success r) (created r) (updated r ++ [f])%list (unchanged r) (error r)
  | Unchanged => mk (success r) (created r) (updated r) (unchanged r ++ [f])%list (error r)
  end.

(** The branch a rendered document takes against the snapshot [E]. *)
Definition classify (E : list ExistingRuleFile.t) (f m : string) : Outcome :=
  match findExisting E f with
  | Some existingFile =>
      if needsUpdate (ExistingRuleFile.content existingFile) m then Updated else Unchanged
  | None => Created
  end.

(** The file a category entry stands for: none when it is skipped. *)
Definition target (entry : string * option RuleCategory.t) : list (string * string) :=
  match entry with
  | (categoryName, Some c) =>
      if skipped (Some c) then []
      else [(generateFilename categoryName, convertToMDC categoryName c)]
  | (_, None) => []
  end.

Definition targets (d : AnalysisData) : list (string * string) := flat_map target d.

Definition record (E : list ExistingRuleFile.t) (r : RulesManagerResult.t)
           (t : string * string) : RulesManagerResult.t :=
  push (classify E (fst t) (snd t)) (fst t) r.

(** The entry a document is written to when its path stays in the
    directory. *)
Definition entryOf (t : string * string) : string := JS.lastSegment (fst t).

Definition store (place : Fs.Place) (E : list ExistingRuleFile.t) (D : Fs.Dir)
           (t : string * string) : Fs.Dir :=
  match classify E (fst t) (snd t) with
  | Unchanged => D
  | _ => if inRulesDir place (fst t) then Fs.write (entryOf t) (snd t) D else D
  end.

(** The branch the summary takes. *)
Definition classifySummary (E : list ExistingRuleFile.t) (summary : string) : Outcome :=
  if negb (existsb (String.eqb (JS.toLowerCase summaryFilename))
                   (map (fun r => JS.toLowerCase (ExistingRuleFile.filename r)) E))
  then Created
  else match findExisting E summaryFilename with
       | Some existingFile =>
           if needsUpdate (ExistingRuleFile.content existingFile) summary
           then Updated else Unchanged
       | None => Unchanged
       end.

Definition recordSummary (E : list ExistingRuleFile.t) (summary : string)
           (r : RulesManagerResult.t) : RulesManagerResult.t :=
  match classifySummary E summary with
  | Unchanged =>
      if existsb (String.eqb summaryFilename) (unchanged r) then r
      else push Unchanged summaryFilename r
  | o => push o summaryFilename r
  end.

Definition storeSummary (E : list ExistingRuleFile.t) (summary : string) (D : Fs.Dir)
  : Fs.Dir :=
  match classifySummary E summary with
  | Unchanged => D
  | _ => Fs.write summaryFilename summary D
  end.

Definition keepFilesOf (r : RulesManagerResult.t) : list string :=
  (created r ++ updated r ++ unchanged r)%list.

(** The test of the cleanup loop: a recognised extension and a name that,
    in lower case, is not among the lower-cased names to keep. *)
Definition stale (keepFiles : list string) (file : string) : bool :=
  negb (lowerIn file (map JS.toLowerCase keepFiles)) && isRuleFile file.

Definition sweep (keepFiles : list string) (D : Fs.Dir) : Fs.Dir :=
  filter (fun e => negb (stale keepFiles (fst e))) D.

Definition finalResult (E : list ExistingRuleFile.t) (d : AnalysisData) (now : string)
  : RulesManagerResult.t :=
  recordSummary E (createSummary d now) (fold_left (record E) (targets d) freshResult).

Definition finalDir (place : Fs.Place) (E : list ExistingRuleFile.t)
           (d : AnalysisData) (now : string) (D : Fs.Dir) : Fs.Dir :=
  sweep (keepFilesOf (finalResult E d now))
        (storeSummary E (createSummary d now) (fold_left (store place E) (targets d) D)).

(** File names that are single path components. *)
Definition plainNames (names : list string) : Prop :=
  forall f, In f names -> JS.occurs "/" f = false.

(** A change of the directory that a dry run leaves out. *)
Definition applyTo (dryRun : bool) (f : Fs.Dir -> Fs.Dir) (rulesDir : option Fs.Dir)
  : option Fs.Dir :=
  if dryRun then rulesDir else option_map f rulesDir.

(** What holds of the store all along a pass over the documents [W]
    that started on the directory [D0]: every file is an old one or the
    entry of one of [W], and, unless the run is dry, when the names of [W]
    are single components every file listed as created or updated is on
    the disk with a content of [W]. *)
Definition tracked (dryRun : bool) (D0 : Fs.Dir) (W : list (string * string))
           (st : Store) : Prop :=
  (forall n, In n (Fs.names (dirOf (disk st))) ->
             In n (Fs.names D0) \/ In n (map entryOf W)) /\
  (dryRun = false -> plainNames (map fst W) ->
   forall f, In f (created (result st) ++ updated (result st))%list ->
             exists m, Fs.lookup f (dirOf (disk st)) = Some m /\ In (f, m) W).

(** The documents of a pass: the summary and the targets. *)
Definition documents (d : AnalysisData) (now : string) : list (string * string) :=
  (summaryFilename, createSummary d now) :: targets d.

(** No two names of the directory differ only by case from a name the
    pass looks up. *)
Definition exactNames (D : Fs.Dir) (lookedUp : list string) : Prop :=
  forall n f, In n (Fs.names D) -> In f lookedUp ->
              JS.toLowerCase n = JS.toLowerCase f -> n = f.

(** Shapes of texts, to state what trimming and normalising give. *)
Fixpoint allWhiteSpace (s : string) : bool :=
  match s with
  | EmptyString => true
  | String c r => JS.isWhiteSpace c && allWhiteSpace r
  end.

Definition startsWithWhiteSpace (s : string) : bool :=
  match s with
  | EmptyString => false
  | String c _ => JS.isWhiteSpace c
  end.

Fixpoint endsWithWhiteSpace (s : string) : bool :=
  match s with
  | EmptyString => false
  | String c EmptyString => JS.isWhiteSpace c
  | String _ r => endsWithWhiteSpace r
  end.

(** Every white-space character is a space that a character other than
    white space follows. *)
Fixpoint singleSpaced (s : string) : bool :=
  match s with
  | EmptyString => true
  | String c r =>
      if JS.isWhiteSpace c then
        Ascii.eqb c " " && negb (startsWithWhiteSpace r) &&
        negb (r =? EmptyString) && singleSpaced r
      else singleSpaced r
  end.

End Pure.

(* ================================================================= *)
(** ** Sample inputs *)

Module Samples.

Definition rule (name description : string) : Rule.t :=
  Rule.mk name description None None.

Definition withRules (title : string) (rules : list Rule.t) : RuleCategory.t :=
  RuleCategory.mk title None rules None None None.

(** The example of the specification: one category, one rule. *)
Definition frameworks : AnalysisData :=
  [("frameworks", Some (withRules "Frameworks" [rule "R1" "D1"]))].

(** Two keys that derive the file name [a.mdc], both with a rule. *)
Definition colliding : AnalysisData :=
  [("A", Some (withRules "Upper" [rule "R1" "D1"]));
   ("a", Some (withRules "Lower" [rule "R2" "D2"]))].




(** Keys that hold a path separator: one that leads out of the directory,
    one that leads back into it, the latter also next to an empty category
    of the file name it is written to. *)
Definition outside : AnalysisData :=
  [("../evil", Some (withRules "Outside" [rule "R1" "D1"]))].

Definition dotted : AnalysisData :=
  [("./b", Some (withRules "Second" [rule "R2" "D2"]))].

Definition dottedShadow : AnalysisData :=
  [("b", Some (withRules "Empty" []));
   ("./b", Some (withRules "Second" [rule "R2" "D2"]))].


(** Writing the summary is refused. *)
Definition denySummary : Fs.Faults :=
  fun op =>
    match op with
    | Fs.writeFile name =>
        if name =? "README.md" then Some "EACCES: permission denied" else None
    | _ => None
    end.


Definition monday : string := "2025-11-03T09:00:00.000Z".
Definition tuesday : string := "2025-11-04T09:00:00.000Z".

End Samples.

(* ================================================================= *)
(** * Properties *)

Import JS.

(** ** Strings *)

Section StringFacts.

Lemma append_nil_r (s : string) : s ++ EmptyString = s.
Proof. induction s as [|c s IH]; simpl; [reflexivity | now rewrite IH]. Qed.

Lemma append_assoc (a b c : string) : (a ++ b) ++ c = a ++ (b ++ c).
Proof. induction a as [|x a IH]; simpl; [reflexivity | now rewrite IH]. Qed.

Lemma append_inv_head (a b c : string) : a ++ b = a ++ c -> b = c.
Proof.
  induction a as [|x a IH]; simpl; intros H; [exact H|].
  injection H as H. auto.
Qed.

Lemma length_append (a b : string) :
  String.length (a ++ b) = String.length a + String.length b.
Proof. induction a as [|x a IH]; simpl; [reflexivity | now rewrite IH]. Qed.

Lemma append_inv_tail (a b c : string) : a ++ c = b ++ c -> a = b.
Proof.
  revert b. induction a as [|x a IH]; intros [|y b] H; simpl in H.
  - reflexivity.
  - apply (f_equal String.length) in H. simpl in H.
    rewrite length_append in H. lia.
  - apply (f_equal String.length) in H. simpl in H.
    rewrite length_append in H. lia.
  - injection H as -> H. f_equal. auto.
Qed.

Lemma occurs_append (c : ascii) (a b : string) :
  occurs c (a ++ b) = occurs c a || occurs c b.
Proof.
  induction a as [|x a IH]; simpl; [reflexivity|].
  now rewrite IH, orb_assoc.
Qed.

Lemma fromFirst_none (c : ascii) (s : string) :
  fromFirst c s = None <-> occurs c s = false.
Proof.
  induction s as [|x s IH]; simpl; [tauto|].
  destruct (Ascii.eqb x c); simpl; [split; discriminate | exact IH].
Qed.

Lemma fromFirst_some (c : ascii) (s t : string) :
  fromFirst c s = Some t ->
  exists pre r, s = pre ++ t /\ t = String c r /\ occurs c pre = false.
Proof.
  induction s as [|x s IH]; simpl; [discriminate|].
  destruct (Ascii.eqb_spec x c) as [->|Hne]; intros H.
  - injection H as <-. exists EmptyString, s. auto.
  - destruct (IH H) as (pre & r & -> & -> & Hpre).
    exists (String x pre), r. simpl.
    rewrite Hpre. apply Ascii.eqb_neq in Hne. rewrite Hne. auto.
Qed.

Lemma uptoLast_none (c : ascii) (s : string) :
  uptoLast c s = None <-> occurs c s = false.
Proof.
  induction s as [|x s IH]; simpl; [tauto|].
  destruct (uptoLast c s).
  - split; [discriminate|]. intros H. apply orb_false_elim in H.
    destruct H as [_ H]. apply IH in H. discriminate.
  - destruct IH as [IH _]. rewrite (IH eq_refl), orb_false_r.
    destruct (Ascii.eqb x c); split; congruence.
Qed.

Lemma uptoLast_some (c : ascii) (s m : string) :
  uptoLast c s = Some m ->
  exists mid post, s = m ++ post /\ m = mid ++ String c EmptyString /\
                   occurs c post = false.
Proof.
  revert m. induction s as [|x s IH]; simpl; intros m; [discriminate|].
  destruct (uptoLast c s) as [p|] eqn:E.
  - intros H. injection H as <-.
    destruct (IH p eq_refl) as (mid & post & -> & -> & Hpost).
    exists (String x mid), post. auto.
  - destruct (Ascii.eqb_spec x c) as [->|Hne]; [|discriminate].
    intros H. injection H as <-.
    exists EmptyString, s. apply uptoLast_none in E. auto.
Qed.

(** A prefix free of [c] that is followed by [c] is the shortest such. *)
Lemma first_occurrence (c : ascii) (p r pre r' : string) :
  occurs c p = false ->
  p ++ String c r = pre ++ String c r' ->
  exists x, pre = p ++ x.
Proof.
  revert pre. induction p as [|y p IH]; intros pre Hp H.
  - exists pre. reflexivity.
  - simpl in Hp. apply orb_false_elim in Hp. destruct Hp as [Hy Hp].
    destruct pre as [|z pre]; simpl in H.
    + injection H as -> _. rewrite Ascii.eqb_refl in Hy. discriminate.
    + injection H as -> H. destruct (IH pre Hp H) as [x ->].
      exists x. reflexivity.
Qed.

(** What the pattern [/\{[\s\S]*\}/] finds: the text from the first
    opening brace to the last closing brace. *)
Lemma matchObject_some (s m : string) :
  matchObject s = Some m ->
  exists pre mid post,
    s = pre ++ m ++ post /\ m = "{" ++ mid ++ "}" /\
    occurs "{" pre = false /\ occurs "}" post = false.
Proof.
  unfold matchObject. destruct (fromFirst "{" s) as [t|] eqn:E; [|discriminate].
  intros H. destruct (fromFirst_some _ _ _ E) as (pre & r & -> & -> & Hpre).
  destruct (uptoLast_some _ _ _ H) as (mid & post & Ht & -> & Hpost).
  destruct mid as [|x mid]; simpl in Ht.
  - injection Ht as Hc _. discriminate.
  - injection Ht as <- Ht. exists pre, mid, post. simpl. rewrite Ht.
    rewrite append_assoc. auto.
Qed.

Lemma matchObject_none (s : string) :
  matchObject s = None ->
  forall pre mid post, s <> pre ++ "{" ++ mid ++ "}" ++ post.
Proof.
  unfold matchObject. intros H pre mid post Hs.
  destruct (fromFirst "{" s) as [t|] eqn:E.
  - destruct (fromFirst_some _ _ _ E) as (p & r & Hp & -> & Hfree).
    apply uptoLast_none in H. rewrite Hs in Hp. simpl in Hp. symmetry in Hp.
    destruct (first_occurrence _ _ _ _ _ Hfree Hp) as [x ->].
    rewrite append_assoc in Hp. apply append_inv_head in Hp.
    rewrite Hp in H. rewrite occurs_append in H. simpl in H.
    rewrite occurs_append in H. simpl in H.
    rewrite orb_true_r in H. simpl in H. rewrite orb_true_r in H. discriminate.
  - apply fromFirst_none in E. rewrite Hs, occurs_append in E.
    simpl in E. rewrite orb_true_r in E. discriminate.
Qed.

(** The pattern finds the text between a first opening brace and a last
    closing brace wherever these stand. *)
Lemma fromFirst_found (c : ascii) (pre r : string) :
  occurs c pre = false -> fromFirst c (pre ++ String c r) = Some (String c r).
Proof.
  induction pre as [|x pre IH]; simpl; intros H.
  - now rewrite Ascii.eqb_refl.
  - apply orb_false_elim in H. destruct H as [Hx Hp]. rewrite Hx. auto.
Qed.

Lemma uptoLast_found (c : ascii) (m post : string) :
  occurs c post = false ->
  uptoLast c (m ++ String c post) = Some (m ++ String c EmptyString).
Proof.
  intros H. induction m as [|x m IH]; simpl.
  - apply uptoLast_none in H. rewrite H. now rewrite Ascii.eqb_refl.
  - now rewrite IH.
Qed.

Lemma matchObject_found (pre mid post : string) :
  occurs "{" pre = false -> occurs "}" post = false ->
  matchObject (pre ++ "{" ++ mid ++ "}" ++ post) = Some ("{" ++ mid ++ "}").
Proof.
  intros Hpre Hpost. unfold matchObject.
  change (pre ++ "{" ++ mid ++ "}" ++ post)
    with (pre ++ String "{" (mid ++ String "}" post)).
  rewrite fromFirst_found by exact Hpre.
  change (String "{" (mid ++ String "}" post))
    with (String "{" mid ++ String "}" post).
  rewrite uptoLast_found by exact Hpost. reflexivity.
Qed.

(** The last component of a path. *)
Lemma lastSegment_plain (s : string) : occurs "/" s = false -> lastSegment s = s.
Proof.
  destruct s as [|x s]; simpl; [reflexivity|].
  intros H. apply orb_false_elim in H. destruct H as [Hx Hs].
  now rewrite Hs, Hx.
Qed.

Lemma lastSegment_append (a b : string) :
  occurs "/" b = false -> lastSegment (a ++ b) = lastSegment a ++ b.
Proof.
  intros Hb. induction a as [|x a IH]; simpl.
  - now apply lastSegment_plain.
  - rewrite occurs_append, Hb, orb_false_r. destruct (occurs "/" a); [exact IH|].
    destruct (Ascii.eqb x "/"); reflexivity.
Qed.

End StringFacts.

(* ================================================================= *)
(** ** The agent invoker *)

Section AnalyzerFacts.

Import Analyzer.

Variable JSON_parse : string -> json + string.

(** C1 (as amended).  On exit code 0 the invoker takes the text from the
    first opening brace of stdout to its last closing brace, and parses
    that text; when stdout has no opening brace followed by a closing
    brace it answers [success: false] with the error "No JSON found in
    cursor-agent output" and keeps the raw stdout. *)
Theorem analyzeCodebase_extracts_first_to_last_brace (stdout stderr : string) :
  match matchObject stdout with
  | None =>
      (forall pre mid post, stdout <> pre ++ "{" ++ mid ++ "}" ++ post) /\
      analyzeCodebase JSON_parse (Some 0) stdout stderr =
        AnalysisResult.mk false None
          (Some "No JSON found in cursor-agent output") (Some stdout)
  | Some jsonMatch =>
      (exists pre mid post,
          stdout = pre ++ jsonMatch ++ post /\ jsonMatch = "{" ++ mid ++ "}" /\
          occurs "{" pre = false /\ occurs "}" post = false) /\
      match JSON_parse jsonMatch with
      | inr msg =>
          analyzeCodebase JSON_parse (Some 0) stdout stderr =
            AnalysisResult.mk false None
              (Some ("Failed to parse cursor-agent output as JSON: " ++ msg))
              (Some stdout)
      | inl parsed =>
          analyzeCodebase JSON_parse (Some 0) stdout stderr =
            match unwrapResult JSON_parse parsed with
            | inl data => AnalysisResult.mk true (Some data) None (Some stdout)
            | inr msg =>
                AnalysisResult.mk false None
                  (Some ("Failed to parse cursor-agent output as JSON: " ++ msg))
                  (Some stdout)
            end
      end
  end.
Proof.
  unfold analyzeCodebase. simpl.
  destruct (matchObject stdout) as [m|] eqn:E.
  - split; [exact (matchObject_some _ _ E)|].
    destruct (JSON_parse m) as [parsed|msg]; reflexivity.
  - split; [exact (matchObject_none _ E) | reflexivity].
Qed.

(** C2 (as amended).  The wrapper field is the one named [result].  When
    stdout holds the text of an object between its first opening brace and
    its last closing brace, and that object has a field [result] whose
    value is a string that holds a closing brace after an opening one, the
    answer is decided by parsing the text of that string from its first
    opening brace to its last closing brace: the value parsed there
    becomes the data as it is, so a wrapper inside the wrapper is not
    opened, and a syntax error there becomes the parse failure.  An object
    whose [result] field is missing or is not a string is the data itself,
    whatever its other fields hold. *)
Theorem analyzeCodebase_unwraps_once
  (stdout stderr pre mid post : string) (fields : list (string * json)) :
  stdout = pre ++ "{" ++ mid ++ "}" ++ post ->
  occurs "{" pre = false ->
  occurs "}" post = false ->
  JSON_parse ("{" ++ mid ++ "}") = inl (JObject fields) ->
  (forall result ipre imid ipost : string,
      Json.get "result" fields = Some (JString result) ->
      result = ipre ++ "{" ++ imid ++ "}" ++ ipost ->
      occurs "{" ipre = false ->
      occurs "}" ipost = false ->
      analyzeCodebase JSON_parse (Some 0) stdout stderr =
        match JSON_parse ("{" ++ imid ++ "}") with
        | inl inner => AnalysisResult.mk true (Some inner) None (Some stdout)
        | inr msg =>
            AnalysisResult.mk false None
              (Some ("Failed to parse cursor-agent output as JSON: " ++ msg))
              (Some stdout)
        end) /\
  ((forall result, Json.get "result" fields <> Some (JString result)) ->
   analyzeCodebase JSON_parse (Some 0) stdout stderr =
     AnalysisResult.mk true (Some (JObject fields)) None (Some stdout)).
Proof.
  intros Hs Hpre Hpost Hp. unfold analyzeCodebase, unwrapResult.
  cbn [isZero negb].
  assert (Hm : matchObject stdout = Some ("{" ++ mid ++ "}")).
  { rewrite Hs. now apply matchObject_found. }
  rewrite Hm, Hp. clear Hs Hm. split.
  - intros result ipre imid ipost Hr -> Hipre Hipost.
    rewrite Hr, (matchObject_found ipre imid ipost Hipre Hipost).
    destruct (JSON_parse ("{" ++ imid ++ "}")); reflexivity.
  - intros Hno. destruct (Json.get "result" fields) as [[| | |result| |]|];
      try reflexivity.
    now destruct (Hno result).
Qed.

(** C10.  When the [result] field of the parsed top-level object is a
    string in which the brace pattern finds nothing, no parse failure is
    reported: the answer is [success: true] and the data is the wrapper
    object itself. *)
Theorem analyzeCodebase_keeps_wrapper_without_braces
  (stdout stderr jsonMatch result : string) (fields : list (string * json)) :
  matchObject stdout = Some jsonMatch ->
  JSON_parse jsonMatch = inl (JObject fields) ->
  Json.get "result" fields = Some (JString result) ->
  matchObject result = None ->
  analyzeCodebase JSON_parse (Some 0) stdout stderr =
    AnalysisResult.mk true (Some (JObject fields)) None (Some stdout).
Proof.
  intros Hm Hp Hr Hi. unfold analyzeCodebase, unwrapResult. simpl.
  now rewrite Hm, Hp, Hr, Hi.
Qed.

End AnalyzerFacts.

(** The example of the specification: commentary around one object. *)
Example analyzeCodebase_noise :
  Analyzer.analyzeCodebase Json.parse (Some 0)
    (Analyzer.dq "noise {'a':1} trailing") EmptyString =
  AnalysisResult.mk true (Some (JObject [("a", JNumber "1")])) None
    (Some (Analyzer.dq "noise {'a':1} trailing")).
Proof. vm_compute. reflexivity. Qed.

(** C1 refuted as stated: with two objects in stdout the first balanced
    object is the first of them, yet the invoker takes the whole text from
    the first brace to the last and fails to parse it. *)
Lemma analyzeCodebase_not_first_balanced :
  Analyzer.firstBalancedObject (Analyzer.dq "{'a':1} {'b':2}")
    = Some (Analyzer.dq "{'a':1}") /\
  Json.parse (Analyzer.dq "{'a':1}") = inl (JObject [("a", JNumber "1")]) /\
  matchObject (Analyzer.dq "{'a':1} {'b':2}")
    = Some (Analyzer.dq "{'a':1} {'b':2}") /\
  AnalysisResult.success
    (Analyzer.analyzeCodebase Json.parse (Some 0)
       (Analyzer.dq "{'a':1} {'b':2}") EmptyString) = false.
Proof. vm_compute. repeat split; reflexivity. Qed.

(** A wrapper inside a wrapper, after a line of commentary: the data is
    the inner wrapper. *)
Lemma analyzeCodebase_unwraps_once_witness :
  Analyzer.analyzeCodebase Json.parse (Some 0)
    (Analyzer.dq "log: {'result':'{\'result\':\'{}\'}'}") EmptyString =
  AnalysisResult.mk true (Some (JObject [("result", JString "{}")])) None
    (Some (Analyzer.dq "log: {'result':'{\'result\':\'{}\'}'}")).
Proof.
  exact (proj1 (analyzeCodebase_unwraps_once Json.parse
                  (Analyzer.dq "log: {'result':'{\'result\':\'{}\'}'}") EmptyString
                  "log: " (Analyzer.dq "'result':'{\'result\':\'{}\'}'") EmptyString
                  [("result", JString (Analyzer.dq "{'result':'{}'}"))]
                  eq_refl eq_refl eq_refl eq_refl)
               (Analyzer.dq "{'result':'{}'}")
               EmptyString (Analyzer.dq "'result':'{}'") EmptyString
               eq_refl eq_refl eq_refl eq_refl).
Defined.

(** C2 refuted as stated: the parsed object has a single field, whose
    value is a string that holds the text of an object, and nothing is
    unwrapped, because the field is not named [result]: the data is the
    outer object.  Under the name [result] the same string is unwrapped. *)
Lemma analyzeCodebase_unwraps_only_result :
  Json.parse (Analyzer.dq "{'a':1}") = inl (JObject [("a", JNumber "1")]) /\
  Analyzer.analyzeCodebase Json.parse (Some 0)
    (Analyzer.dq "{'response':'{\'a\':1}'}") EmptyString =
  AnalysisResult.mk true
    (Some (JObject [("response", JString (Analyzer.dq "{'a':1}"))])) None
    (Some (Analyzer.dq "{'response':'{\'a\':1}'}")) /\
  Analyzer.analyzeCodebase Json.parse (Some 0)
    (Analyzer.dq "{'result':'{\'a\':1}'}") EmptyString =
  AnalysisResult.mk true (Some (JObject [("a", JNumber "1")])) None
    (Some (Analyzer.dq "{'result':'{\'a\':1}'}")).
Proof. vm_compute. repeat split; reflexivity. Qed.

Lemma analyzeCodebase_keeps_wrapper_witness :
  Analyzer.analyzeCodebase Json.parse (Some 0)
    (Analyzer.dq "log: {'result':'nothing to report','ok':true}") EmptyString =
  AnalysisResult.mk true
    (Some (JObject [("result", JString "nothing to report"); ("ok", JBool true)]))
    None (Some (Analyzer.dq "log: {'result':'nothing to report','ok':true}")).
Proof.
  exact (analyzeCodebase_keeps_wrapper_without_braces Json.parse
           (Analyzer.dq "log: {'result':'nothing to report','ok':true}") EmptyString
           (Analyzer.dq "{'result':'nothing to report','ok':true}")
           "nothing to report"
           [("result", JString "nothing to report"); ("ok", JBool true)]
           eq_refl eq_refl eq_refl eq_refl).
Defined.

(* ================================================================= *)
(** ** Rendering, file names and comparison *)

Section RenderingFacts.

Import RulesManager Pure.

(** C7.  The [alwaysApply] line of the frontmatter carries a flag that
    follows this priority: the category's own [alwaysApply] when it is
    defined; otherwise true when [ruleType] is "always"; otherwise true
    exactly for the keys "bestPractices" and "conventions". *)
Theorem convertToMDC_alwaysApply_priority
  (categoryName : string) (category : RuleCategory.t) :
  exists flag : bool,
    convertToMDC categoryName category =
      "---" ++ LF ++
      "description: " ++
        orElse (RuleCategory.description category) (RuleCategory.title category) ++ LF ++
      match RuleCategory.globs category with
      | Some (g :: gs) => "globs: " ++ Json.stringifyStrings (g :: gs) ++ LF
      | _ => EmptyString
      end ++
      "alwaysApply: " ++ ofBool flag ++ LF ++
      "---" ++ LF ++ LF ++
      String.concat EmptyString (map renderRule (RuleCategory.rules category))
    /\ (forall b, RuleCategory.alwaysApply category = Some b -> flag = b)
    /\ (RuleCategory.alwaysApply category = None ->
        RuleCategory.ruleType category = Some always -> flag = true)
    /\ (RuleCategory.alwaysApply category = None ->
        RuleCategory.ruleType category <> Some always ->
        (flag = true <->
         categoryName = "bestPractices" \/ categoryName = "conventions")).
Proof.
  exists (alwaysApplyFlag categoryName category).
  split; [reflexivity|]. unfold alwaysApplyFlag.
  destruct (RuleCategory.alwaysApply category) as [b|].
  - repeat split; try discriminate. now intros b' [= ->].
  - split; [discriminate|]. split.
    + now intros _ ->.
    + intros _ Hrt.
      destruct (RuleCategory.ruleType category) as [[]|];
        try (exfalso; apply Hrt; reflexivity);
        rewrite orb_true_iff, !String.eqb_eq; reflexivity.
Qed.

Lemma toLowerChar_idem (c : ascii) : toLowerChar (toLowerChar c) = toLowerChar c.
Proof. destruct c as [[] [] [] [] [] [] [] []]; reflexivity. Qed.

Lemma toLowerCase_append (a b : string) :
  toLowerCase (a ++ b) = toLowerCase a ++ toLowerCase b.
Proof. induction a as [|c a IH]; simpl; [reflexivity | now rewrite IH]. Qed.

Lemma toLowerCase_hyphens (s : string) :
  toLowerCase (replaceWhiteSpaceRuns "-" (toLowerCase s)) =
  replaceWhiteSpaceRuns "-" (toLowerCase s).
Proof.
  induction s as [|c s IH]; [reflexivity|].
  cbn [toLowerCase replaceWhiteSpaceRuns].
  destruct (isWhiteSpace (toLowerChar c)) eqn:Hc.
  - destruct s as [|c' s]; [reflexivity|].
    cbn [toLowerCase] in *.
    destruct (isWhiteSpace (toLowerChar c')); [exact IH|].
    rewrite toLowerCase_append, IH. reflexivity.
  - cbn [toLowerCase]. now rewrite toLowerChar_idem, IH.
Qed.

(** A derived file name is its own lower-case form. *)
Lemma generateFilename_lower (k : string) :
  toLowerCase (generateFilename k) = generateFilename k.
Proof.
  unfold generateFilename.
  now rewrite toLowerCase_append, toLowerCase_hyphens.
Qed.

Lemma endsWith_append (a suffix : string) : endsWith (a ++ suffix) suffix = true.
Proof.
  induction a as [|c a IH]; simpl.
  - destruct suffix; cbn [endsWith]; now rewrite String.eqb_refl.
  - rewrite IH. apply orb_true_r.
Qed.

Lemma generateFilename_isRuleFile (k : string) : isRuleFile (generateFilename k) = true.
Proof.
  unfold isRuleFile, generateFilename. now rewrite endsWith_append.
Qed.

(** So has the last component of a derived name that is a path. *)
Lemma lastSegment_generateFilename (k : string) :
  isRuleFile (lastSegment (generateFilename k)) = true.
Proof.
  unfold isRuleFile, generateFilename.
  rewrite lastSegment_append by reflexivity. now rewrite endsWith_append.
Qed.

Lemma generateFilename_not_summary (k : string) :
  toLowerCase (generateFilename k) <> toLowerCase summaryFilename.
Proof.
  rewrite generateFilename_lower. intros H.
  pose proof (endsWith_append (replaceWhiteSpaceRuns "-" (toLowerCase k)) ".mdc") as E.
  fold (generateFilename k) in E. rewrite H in E. discriminate.
Qed.

Lemma strip_append (a b : string) : strip (a ++ b) = strip a ++ strip b.
Proof.
  induction a as [|c a IH]; simpl; [reflexivity|].
  destruct (isWhiteSpace c); simpl; now rewrite IH.
Qed.

Lemma strip_trimStart (s : string) : strip (trimStart s) = strip s.
Proof.
  induction s as [|c s IH]; simpl; [reflexivity|].
  destruct (isWhiteSpace c) eqn:E; [exact IH|]. simpl. now rewrite E.
Qed.

Lemma strip_trimEnd (s : string) : strip (trimEnd s) = strip s.
Proof.
  induction s as [|c s IH]; simpl; [reflexivity|].
  destruct (trimEnd s) as [|x r] eqn:E.
  - destruct (isWhiteSpace c) eqn:Hc; simpl; rewrite ?Hc; rewrite <- IH; reflexivity.
  - cbn [strip]. rewrite <- IH. reflexivity.
Qed.

Lemma strip_spaces (s : string) : strip (replaceWhiteSpaceRuns " " s) = strip s.
Proof.
  induction s as [|c s IH]; [reflexivity|].
  cbn [replaceWhiteSpaceRuns strip].
  destruct (isWhiteSpace c) eqn:Hc.
  - destruct s as [|c' s]; [reflexivity|].
    destruct (isWhiteSpace c') eqn:Hc'; [exact IH|].
    rewrite strip_append, IH. reflexivity.
  - cbn [strip]. now rewrite Hc, IH.
Qed.

Lemma strip_normalize (s : string) : strip (normalize s) = strip s.
Proof.
  unfold normalize, trim.
  now rewrite strip_spaces, strip_trimEnd, strip_trimStart.
Qed.

Lemma needsUpdate_refl (s : string) : needsUpdate s s = false.
Proof. unfold needsUpdate. now rewrite String.eqb_refl. Qed.

Lemma needsUpdate_false_strip (a b : string) :
  needsUpdate a b = false -> strip a = strip b.
Proof.
  unfold needsUpdate. intros H. apply negb_false_iff, String.eqb_eq in H.
  rewrite <- (strip_normalize a), <- (strip_normalize b). now rewrite H.
Qed.

Lemma strip_free (s : string) : occursWhiteSpace s = false -> strip s = s.
Proof.
  induction s as [|c s IH]; simpl; [reflexivity|].
  intros H. apply orb_false_elim in H. destruct H as [-> H]. now rewrite IH.
Qed.

(** Two summaries of the same data taken at different clock readings
    differ after normalisation. *)
Lemma createSummary_clock (d : AnalysisData) (now1 now2 c : string) :
  occursWhiteSpace now1 = false -> occursWhiteSpace now2 = false ->
  now1 <> now2 ->
  needsUpdate c (createSummary d now1) = false ->
  needsUpdate c (createSummary d now2) = true.
Proof.
  intros H1 H2 Hne Hc.
  destruct (needsUpdate c (createSummary d now2)) eqn:E; [reflexivity|].
  exfalso. apply Hne.
  apply needsUpdate_false_strip in Hc. apply needsUpdate_false_strip in E.
  rewrite Hc in E. unfold createSummary in E.
  rewrite !strip_append in E.
  repeat apply append_inv_head in E.
  rewrite (strip_free _ H1), (strip_free _ H2) in E.
  now apply append_inv_tail in E.
Qed.

End RenderingFacts.

(* ================================================================= *)
(** ** The directory *)

Section DirFacts.

Import Fs.

Lemma In_names_write (n f m : string) (D : Dir) :
  In n (names (write f m D)) <-> n = f \/ In n (names D).
Proof.
  induction D as [|[x c] D IH]; simpl.
  - intuition congruence.
  - destruct (String.eqb_spec x f) as [->|Hne]; simpl.
    + intuition congruence.
    + rewrite IH. intuition congruence.
Qed.

Lemma lookup_write (n f m : string) (D : Dir) :
  lookup n (write f m D) = if f =? n then Some m else lookup n D.
Proof.
  induction D as [|[x c] D IH]; simpl.
  - reflexivity.
  - destruct (String.eqb_spec x f) as [->|Hne]; simpl.
    + destruct (String.eqb_spec f n); reflexivity.
    + rewrite IH. destruct (String.eqb_spec x n) as [->|]; [|reflexivity].
      apply String.eqb_neq in Hne. rewrite String.eqb_sym in Hne. now rewrite Hne.
Qed.

Lemma lookup_In (n : string) (D : Dir) :
  In n (names D) -> exists c, lookup n D = Some c.
Proof.
  induction D as [|[x c] D IH]; simpl; [tauto|].
  destruct (String.eqb_spec x n) as [->|Hne]; [eauto|].
  intros [H|H]; [congruence | auto].
Qed.

Lemma NoDup_write (f m : string) (D : Dir) :
  NoDup (names D) -> NoDup (names (write f m D)).
Proof.
  induction D as [|[x c] D IH]; simpl; intros H.
  - constructor; [tauto | constructor].
  - inversion H as [|? ? Hx HD]; subst.
    destruct (String.eqb_spec x f) as [->|Hne]; simpl.
    + now constructor.
    + constructor; [|auto]. rewrite In_names_write. intuition congruence.
Qed.

Lemma In_names_remove (n m : string) (D : Dir) :
  In n (names (remove m D)) -> In n (names D).
Proof.
  induction D as [|[x c] D IH]; simpl; [tauto|].
  destruct (x =? m); simpl; intuition.
Qed.

Lemma In_names_remove_other (n m : string) (D : Dir) :
  n <> m -> In n (names D) -> In n (names (remove m D)).
Proof.
  intros Hne. induction D as [|[x c] D IH]; simpl; [tauto|].
  destruct (String.eqb_spec x m) as [->|Hx]; simpl; intuition congruence.
Qed.

Lemma lookup_remove_other (n m : string) (D : Dir) :
  n <> m -> lookup n (remove m D) = lookup n D.
Proof.
  intros Hne. induction D as [|[x c] D IH]; simpl; [reflexivity|].
  destruct (String.eqb_spec x m) as [->|Hx]; simpl.
  - apply String.eqb_neq in Hne. rewrite String.eqb_sym in Hne. now rewrite Hne.
  - now rewrite IH.
Qed.

(** Removing, one by one, the names of [D] that [p] selects leaves the
    entries [p] rejects. *)
Lemma remove_selected (p : string -> bool) (D : Dir) :
  NoDup (names D) ->
  fold_left (fun D' n => remove n D') (filter p (names D)) D =
  filter (fun e => negb (p (fst e))) D.
Proof.
  induction D as [|[x c] D IH]; simpl; intros H; [reflexivity|].
  inversion H as [|? ? Hx HD]; subst.
  destruct (p x) eqn:Hp; simpl.
  - rewrite String.eqb_refl. auto.
  - rewrite <- (IH HD). clear IH.
    assert (Hin : forall n, In n (filter p (names D)) -> n <> x).
    { intros n Hn ->. apply filter_In in Hn. tauto. }
    revert Hin. generalize (filter p (names D)) as l. clear -D.
    intros l. revert D. induction l as [|n l IHl]; intros D Hin; simpl.
    + reflexivity.
    + assert (Hn : n <> x) by (apply Hin; now left).
      apply String.eqb_neq in Hn. rewrite String.eqb_sym in Hn. rewrite Hn.
      apply IHl. intros n' Hn'. apply Hin. now right.
Qed.

Lemma lookup_filter (p : string -> bool) (n : string) (D : Dir) :
  lookup n (filter (fun e => p (fst e)) D) = if p n then lookup n D else None.
Proof.
  induction D as [|[x c] D IH]; simpl.
  - now destruct (p n).
  - destruct (p x) eqn:Hp; simpl.
    + destruct (String.eqb_spec x n) as [->|Hne]; [now rewrite Hp | exact IH].
    + destruct (String.eqb_spec x n) as [->|Hne]; [now rewrite Hp in * | exact IH].
Qed.

Lemma NoDup_filter_names (p : string * string -> bool) (D : Dir) :
  NoDup (names D) -> NoDup (names (filter p D)).
Proof.
  induction D as [|[x c] D IH]; simpl; intros H; [constructor|].
  inversion H as [|? ? Hx HD]; subst.
  destruct (p (x, c)); simpl; [|auto].
  constructor; [|auto]. intros Hin. apply Hx.
  unfold names in *. apply in_map_iff in Hin. destruct Hin as (e & He & Hin).
  apply filter_In in Hin. apply in_map_iff. exists e. tauto.
Qed.

End DirFacts.

(* ================================================================= *)
(** ** One pass, step by step *)

Section SyncFacts.

Import Fs RulesManager RulesManagerResult Pure.

Variable fault : Faults.
Variable place : Place.

Lemma store_eta (st : Store) : mkStore (disk st) (result st) = st.
Proof. now destruct st. Qed.

Lemma readRuleFiles_run (D : Dir) (files : list string) :
  forall (acc : list ExistingRuleFile.t) (st : Store),
    disk st = Some D ->
    (forall n, In n files -> In n (names D)) ->
    snd (readRuleFiles fault files acc st) = st /\
    (forall E, fst (readRuleFiles fault files acc st) = inl E ->
               E = (acc ++ map (fun n => ExistingRuleFile.mk n (contentOf D n))
                               (filter isRuleFile files))%list) /\
    ((forall n, fault (readFile n) = None) ->
     fst (readRuleFiles fault files acc st) =
       inl (acc ++ map (fun n => ExistingRuleFile.mk n (contentOf D n))
                       (filter isRuleFile files))%list).
Proof.
  induction files as [|file files IH]; intros acc st Hd Hin; simpl.
  - rewrite app_nil_r. unfold ret. simpl. split; [reflexivity|].
    split; [|reflexivity]. now intros E [= <-].
  - destruct (isRuleFile file) eqn:Hr; [|apply IH; auto with datatypes].
    unfold bind, readFileSync, raising.
    destruct (fault (readFile file)) as [msg|] eqn:Hf; simpl.
    + split; [reflexivity|]. split; [discriminate|].
      intros H. rewrite H in Hf. discriminate.
    + rewrite Hd. destruct (lookup_In file D) as [c Hc]; [auto with datatypes|].
      unfold contentOf at 1 3. rewrite Hc.
      destruct (IH (acc ++ [ExistingRuleFile.mk file c])%list st Hd) as (H1 & H2 & H3);
        [auto with datatypes|].
      rewrite <- app_assoc in H2, H3. simpl in H2, H3. auto.
Qed.

Lemma readExistingRules_run (st : Store) :
  snd (readExistingRules fault st) = st /\
  (forall E, fst (readExistingRules fault st) = inl E ->
             E = snapshot (dirOf (disk st)) /\
             (disk st <> None -> fault readdir = None)) /\
  (fault readdir = None -> (forall n, fault (readFile n) = None) ->
   fst (readExistingRules fault st) = inl (snapshot (dirOf (disk st)))).
Proof.
  unfold readExistingRules, bind, existsSync, readdirSync, raising.
  destruct (disk st) as [D|] eqn:Hd; simpl.
  - destruct (fault readdir) as [msg|] eqn:Hf; simpl.
    + split; [reflexivity|]. split; discriminate.
    + rewrite Hd.
      destruct (readRuleFiles_run D (names D) [] st Hd) as (H1 & H2 & H3); [auto|].
      simpl in H2, H3. unfold snapshot. split; [exact H1|]. split.
      * intros E HE. split; [auto | reflexivity].
      * intros _. exact H3.
  - unfold ret. simpl. split; [reflexivity|]. split; [|reflexivity].
    intros E [= <-]. split; [reflexivity | congruence].
Qed.

Lemma processCategory_run (dryRun : bool) (E : list ExistingRuleFile.t)
      (entry : string * option RuleCategory.t) (st : Store) :
  processCategory fault place dryRun E entry st =
    match target entry with
    | [] => (inl tt, st)
    | t :: _ =>
        match classify E (fst t) (snd t) with
        | Unchanged => (inl tt, mkStore (disk st) (record E (result st) t))
        | _ =>
            if dryRun then (inl tt, mkStore (disk st) (record E (result st) t))
            else
              match fault (writeFile (fst t)) with
              | Some msg => (inr msg, st)
              | None =>
                  if inRulesDir place (fst t) then
                    match disk st with
                    | Some D =>
                        (inl tt, mkStore (Some (write (entryOf t) (snd t) D))
                                         (record E (result st) t))
                    | None => (inr ENOENT, st)
                    end
                  else (inl tt, mkStore (disk st) (record E (result st) t))
              end
        end
    end.
Proof.
  destruct entry as [k [c|]]; simpl; [|reflexivity].
  destruct (List.length (RuleCategory.rules c) =? 0)%nat; [reflexivity|].
  unfold record, classify, entryOf. simpl.
  destruct (findExisting E (generateFilename k)) as [e|].
  - destruct (needsUpdate (ExistingRuleFile.content e) (convertToMDC k c));
      [|reflexivity].
    destruct dryRun; [reflexivity|].
    unfold unless, bind, writeFileSync, raising.
    destruct (fault (writeFile (generateFilename k))); [reflexivity|].
    destruct (inRulesDir place (generateFilename k)); [|reflexivity].
    destruct (disk st); reflexivity.
  - destruct dryRun; [reflexivity|].
    unfold unless, bind, writeFileSync, raising.
    destruct (fault (writeFile (generateFilename k))); [reflexivity|].
    destruct (inRulesDir place (generateFilename k)); [|reflexivity].
    destruct (disk st); reflexivity.
Qed.

Lemma writeSummary_run (dryRun : bool) (E : list ExistingRuleFile.t)
      (summary : string) (st : Store) :
  writeSummary fault place dryRun E summary st =
    match classifySummary E summary with
    | Unchanged => (inl tt, mkStore (disk st) (recordSummary E summary (result st)))
    | _ =>
        if dryRun
        then (inl tt, mkStore (disk st) (recordSummary E summary (result st)))
        else
          match fault (writeFile summaryFilename) with
          | Some msg => (inr msg, st)
          | None =>
              match disk st with
              | Some D =>
                  (inl tt, mkStore (Some (write summaryFilename summary D))
                                   (recordSummary E summary (result st)))
              | None => (inr ENOENT, st)
              end
          end
    end.
Proof.
  unfold writeSummary, recordSummary, classifySummary.
  destruct (negb (existsb _ _)).
  - destruct dryRun; [reflexivity|].
    unfold unless, bind, writeFileSync, raising.
    destruct (fault (writeFile summaryFilename)); [reflexivity|].
    destruct (disk st); reflexivity.
  - assert (Hu : (r <- getResult ;;
                  if negb (existsb (String.eqb summaryFilename) (unchanged r))
                  then pushUnchanged summaryFilename else ret tt) st =
                 (inl tt, mkStore (disk st)
                    (if existsb (String.eqb summaryFilename) (unchanged (result st))
                     then result st else push Unchanged summaryFilename (result st)))).
    { unfold bind, getResult.
      destruct (existsb _ (unchanged (result st))); simpl;
        [unfold ret; now rewrite store_eta | reflexivity]. }
    destruct (findExisting E summaryFilename) as [e|]; [|exact Hu].
    destruct (needsUpdate (ExistingRuleFile.content e) summary); [|exact Hu].
    destruct dryRun; [reflexivity|].
    unfold unless, bind, writeFileSync, raising.
    destruct (fault (writeFile summaryFilename)); [reflexivity|].
    destruct (disk st); reflexivity.
Qed.

(** The loop over the entries records the outcome of every target. *)
Lemma forEach_result (dryRun : bool) (E : list ExistingRuleFile.t) (d : AnalysisData) :
  forall st st',
    forEach (processCategory fault place dryRun E) d st = (inl tt, st') ->
    result st' = fold_left (record E) (targets d) (result st).
Proof.
  induction d as [|entry d IH]; intros st st' H; simpl in *.
  - now injection H as <-.
  - unfold bind in H. rewrite processCategory_run in H.
    unfold targets. simpl. rewrite fold_left_app. fold (targets d).
    destruct entry as [k [c|]]; simpl in *; [|now apply IH].
    destruct (List.length (RuleCategory.rules c) =? 0)%nat; simpl in *; [now apply IH|].
    destruct (classify E _ _); destruct dryRun;
      try (apply IH in H; exact H);
      (destruct (fault (writeFile (generateFilename k))); [discriminate|];
       destruct (inRulesDir place (generateFilename k));
       [destruct (disk st); [|discriminate]|]; apply IH in H; exact H).
Qed.

(** With nothing to write to the disk, or nothing that fails, the loop
    runs to its end. *)
Lemma forEach_exact (dryRun : bool) (E : list ExistingRuleFile.t) (d : AnalysisData) :
  forall st,
    dryRun = true \/ ((forall f, fault (writeFile f) = None) /\ disk st <> None) ->
    forEach (processCategory fault place dryRun E) d st =
      (inl tt, mkStore (applyTo dryRun (fun D => fold_left (store place E) (targets d) D) (disk st))
                       (fold_left (record E) (targets d) (result st))).
Proof.
  induction d as [|entry d IH]; intros st Hok; simpl.
  - unfold ret, applyTo. destruct dryRun; simpl.
    + now rewrite store_eta.
    + destruct st as [[D|] r]; simpl; [reflexivity|]. destruct Hok as [|[_ H]]; [discriminate|].
      now elim H.
  - unfold bind. rewrite processCategory_run.
    unfold targets. simpl. rewrite !fold_left_app. fold (targets d).
    destruct entry as [k [c|]]; simpl; [|now apply IH].
    destruct (List.length (RuleCategory.rules c) =? 0)%nat; simpl; [now apply IH|].
    unfold store at 2. simpl.
    destruct dryRun.
    + destruct (classify E _ _); rewrite IH by auto; reflexivity.
    + destruct Hok as [|[Hw Hd]]; [discriminate|].
      destruct (disk st) as [D|] eqn:HD; [|now elim Hd].
      destruct (classify E _ _); rewrite ?Hw;
        try destruct (inRulesDir place (generateFilename k));
        rewrite IH by (right; split; [auto|simpl; congruence]);
        simpl; rewrite ?HD; reflexivity.
Qed.

Lemma ensureRulesDirectory_run (st : Store) :
  ensureRulesDirectory fault st =
    match disk st with
    | Some _ => (inl tt, st)
    | None =>
        match fault mkdir with
        | Some msg => (inr msg, st)
        | None => (inl tt, mkStore (Some []) (result st))
        end
    end.
Proof.
  unfold ensureRulesDirectory, bind, existsSync, mkdirSync, raising.
  destruct (disk st) eqn:Hd; simpl; [reflexivity|].
  destruct (fault mkdir); [reflexivity|]. now rewrite Hd.
Qed.

(** *** The cleanup loop *)

Lemma removeOld_dry (keepFiles files : list string) :
  forall removed st,
    removeOld fault (map toLowerCase keepFiles) true files removed st =
      (inl (removed ++ filter (stale keepFiles) files)%list, st).
Proof.
  induction files as [|file files IH]; intros removed st; simpl.
  - unfold ret. now rewrite app_nil_r.
  - fold (stale keepFiles file). destruct (stale keepFiles file).
    + unfold bind, unless, ret. rewrite IH, <- app_assoc. reflexivity.
    + apply IH.
Qed.

Lemma removeOld_exact (keepFiles files : list string) :
  (forall n, fault (unlink n) = None) ->
  forall removed st D,
    disk st = Some D -> NoDup files ->
    (forall n, In n files -> In n (names D)) ->
    removeOld fault (map toLowerCase keepFiles) false files removed st =
      (inl (removed ++ filter (stale keepFiles) files)%list,
       mkStore (Some (fold_left (fun D' n => remove n D')
                                (filter (stale keepFiles) files) D))
               (result st)).
Proof.
  intros Hu. induction files as [|file files IH]; intros removed st D Hd Hnd Hin; simpl.
  - unfold ret. rewrite app_nil_r, <- Hd. now rewrite store_eta.
  - inversion Hnd as [|? ? Hfile Hnd']; subst.
    fold (stale keepFiles file). destruct (stale keepFiles file); simpl.
    + unfold bind, unless, unlinkSync, raising. rewrite Hu, Hd.
      destruct (lookup_In file D) as [c ->]; [auto with datatypes|].
      rewrite (IH _ _ (remove file D)); simpl; auto.
      * now rewrite <- app_assoc.
      * intros n Hn. apply In_names_remove_other; [congruence | auto with datatypes].
    + apply IH; auto with datatypes.
Qed.

(** Whatever happens, the cleanup loop leaves [result] alone, adds no
    file, and takes away no file that is to be kept. *)
Lemma removeOld_frame (keepFiles : list string) (dryRun : bool) (files : list string) :
  forall removed st,
    let st' := snd (removeOld fault (map toLowerCase keepFiles) dryRun files removed st) in
    result st' = result st /\
    (forall n, In n (names (dirOf (disk st'))) -> In n (names (dirOf (disk st)))) /\
    (forall n, stale keepFiles n = false ->
               lookup n (dirOf (disk st')) = lookup n (dirOf (disk st))).
Proof.
  induction files as [|file files IH]; intros removed st; simpl.
  - auto.
  - fold (stale keepFiles file). destruct (stale keepFiles file) eqn:Hs; [|apply IH].
    unfold bind, unless. destruct dryRun.
    + unfold ret. apply IH.
    + unfold unlinkSync, raising.
      destruct (fault (unlink file)); [simpl; auto|].
      destruct (disk st) as [D|] eqn:Hd; [|simpl; rewrite Hd; auto].
      destruct (lookup file D); [|simpl; rewrite Hd; auto].
      match goal with
      | |- context [removeOld _ _ _ _ ?r ?s] => destruct (IH r s) as (H1 & H2 & H3)
      end.
      simpl in *. repeat split.
      * exact H1.
      * intros n Hn. eapply In_names_remove, H2, Hn.
      * intros n Hk. rewrite (H3 n Hk).
        apply lookup_remove_other. congruence.
Qed.

Lemma cleanupOldRules_dry (keepFiles : list string) (st : Store) :
  cleanupOldRules fault keepFiles true st =
    match disk st with
    | None => (inl [], st)
    | Some D =>
        match fault readdir with
        | Some msg => (inr msg, st)
        | None => (inl (filter (stale keepFiles) (names D)), st)
        end
    end.
Proof.
  unfold cleanupOldRules, bind, existsSync, readdirSync, raising.
  destruct (disk st) as [D|] eqn:Hd; simpl; [|reflexivity].
  destruct (fault readdir); [reflexivity|]. rewrite Hd.
  now rewrite removeOld_dry.
Qed.

Lemma cleanupOldRules_exact (keepFiles : list string) (st : Store) (D : Dir) :
  fault readdir = None -> (forall n, fault (unlink n) = None) ->
  disk st = Some D -> NoDup (names D) ->
  cleanupOldRules fault keepFiles false st =
    (inl (filter (stale keepFiles) (names D)),
     mkStore (Some (sweep keepFiles D)) (result st)).
Proof.
  intros Hr Hu Hd Hnd.
  unfold cleanupOldRules, bind, existsSync, readdirSync, raising.
  rewrite Hd, Hr. simpl. rewrite Hd.
  rewrite (removeOld_exact keepFiles (names D) Hu [] st D Hd Hnd) by auto.
  simpl. now rewrite remove_selected.
Qed.

Lemma cleanupOldRules_frame (keepFiles : list string) (dryRun : bool) (st : Store) :
  let st' := snd (cleanupOldRules fault keepFiles dryRun st) in
  result st' = result st /\
  (forall n, In n (names (dirOf (disk st'))) -> In n (names (dirOf (disk st)))) /\
  (forall n, stale keepFiles n = false ->
             lookup n (dirOf (disk st')) = lookup n (dirOf (disk st))).
Proof.
  unfold cleanupOldRules, bind, existsSync, readdirSync, raising.
  destruct (disk st) as [D|] eqn:Hd; simpl; [|rewrite Hd; auto].
  destruct (fault readdir); simpl; [rewrite Hd; auto|].
  pose proof (removeOld_frame keepFiles dryRun (names D) [] st) as H.
  simpl in H. rewrite Hd in *. exact H.
Qed.

(** *** The whole pass *)

Lemma writeRulesTry_unfold (d : AnalysisData) (dryRun : bool) (now : string) (st : Store) :
  writeRulesTry fault place d dryRun now st =
    match unless dryRun (ensureRulesDirectory fault) st with
    | (inr msg, s) => (inr msg, s)
    | (inl _, st1) =>
        match readExistingRules fault st1 with
        | (inr msg, s) => (inr msg, s)
        | (inl E, st1') =>
            match forEach (processCategory fault place dryRun E) d st1' with
            | (inr msg, s) => (inr msg, s)
            | (inl _, st2) =>
                match writeSummary fault place dryRun E (createSummary d now) st2 with
                | (inr msg, s) => (inr msg, s)
                | (inl _, st3) =>
                    match cleanupOldRules fault (keepFilesOf (result st3)) dryRun st3 with
                    | (inr msg, s) => (inr msg, s)
                    | (inl _, st4) => (inl (result st4), st4)
                    end
                end
            end
        end
    end.
Proof.
  unfold writeRulesTry, bind, getResult, keepFilesOf.
  destruct (unless dryRun (ensureRulesDirectory fault) st) as [[u|msg] st1]; [|reflexivity].
  destruct (readExistingRules fault st1) as [[E|msg] st1']; [|reflexivity].
  destruct (forEach _ d st1') as [[u2|msg] st2]; [|reflexivity].
  destruct (writeSummary _ _ _ _ _ st2) as [[u3|msg] st3]; [|reflexivity].
  destruct (cleanupOldRules _ _ _ st3) as [[l|msg] st4]; reflexivity.
Qed.

(** What the first step leaves: the same store, or a fresh empty
    directory where there was none. *)
Lemma ensure_step (dryRun : bool) (st : Store) :
  let out := unless dryRun (ensureRulesDirectory fault) st in
  result (snd out) = result st /\
  dirOf (disk (snd out)) = dirOf (disk st) /\
  (dryRun = true -> out = (inl tt, st)) /\
  (disk st <> None -> out = (inl tt, st)) /\
  (fst out = inl tt -> dryRun = false -> disk (snd out) = Some (dirOf (disk st))).
Proof.
  unfold unless. destruct dryRun; simpl.
  - unfold ret. simpl. repeat split; auto; discriminate.
  - rewrite ensureRulesDirectory_run.
    destruct (disk st) as [D|] eqn:Hd; simpl.
    + rewrite Hd. repeat split; auto; discriminate.
    + destruct (fault mkdir); simpl; rewrite ?Hd; repeat split; auto;
        try discriminate; try tauto.
Qed.

Lemma writeSummary_result (dryRun : bool) (E : list ExistingRuleFile.t)
      (summary : string) (st st' : Store) :
  writeSummary fault place dryRun E summary st = (inl tt, st') ->
  result st' = recordSummary E summary (result st).
Proof.
  rewrite writeSummary_run.
  destruct (classifySummary E summary); destruct dryRun;
    try (now intros [= <-]);
    (destruct (fault (writeFile summaryFilename)); [discriminate|];
     destruct (disk st); [now intros [= <-] | discriminate]).
Qed.

(** The lists a pass returns when it does not abort: the outcomes of the
    targets and of the summary against the snapshot of the directory. *)
Lemma writeRulesTry_result (d : AnalysisData) (dryRun : bool) (now : string)
      (rulesDir : option Dir) (r : RulesManagerResult.t) (st' : Store) :
  writeRulesTry fault place d dryRun now (mkStore rulesDir freshResult) = (inl r, st') ->
  r = finalResult (snapshot (dirOf rulesDir)) d now.
Proof.
  rewrite writeRulesTry_unfold.
  destruct (ensure_step dryRun (mkStore rulesDir freshResult)) as (Hr1 & Hd1 & _).
  destruct (unless dryRun _ _) as [[u|msg] st1]; [|discriminate]. simpl in Hr1, Hd1.
  destruct (readExistingRules_run st1) as (Hs & HE & _).
  destruct (readExistingRules fault st1) as [[E|msg] st1']; [|discriminate].
  simpl in Hs, HE. subst st1'. destruct (HE E eq_refl) as [-> _]. rewrite Hd1.
  destruct (forEach _ d st1) as [[[]|msg] st2] eqn:HF; [|discriminate].
  apply forEach_result in HF. rewrite Hr1 in HF.
  destruct (writeSummary _ _ _ _ _ st2) as [[[]|msg] st3] eqn:HS; [|discriminate].
  apply writeSummary_result in HS. rewrite HF in HS.
  destruct (cleanupOldRules_frame (keepFilesOf (result st3)) dryRun st3) as (Hc & _).
  destruct (cleanupOldRules _ _ _ st3) as [[l|msg] st4]; [|discriminate].
  simpl in Hc. intros [= <- <-]. now rewrite Hc, HS.
Qed.

(** A dry run reads the directory and does nothing else to it. *)
Lemma writeRulesTry_dry (d : AnalysisData) (now : string) (st : Store) :
  writeRulesTry fault place d true now st =
    match readExistingRules fault st with
    | (inl E, _) =>
        let r := recordSummary E (createSummary d now)
                               (fold_left (record E) (targets d) (result st)) in
        (inl r, mkStore (disk st) r)
    | (inr msg, _) => (inr msg, st)
    end.
Proof.
  rewrite writeRulesTry_unfold. unfold unless, ret.
  destruct (readExistingRules_run st) as (Hs & HE & _).
  destruct (readExistingRules fault st) as [[E|msg] st1]; simpl in Hs, HE; subst st1;
    [|reflexivity].
  destruct (HE E eq_refl) as [_ Hrd].
  rewrite forEach_exact by now left. simpl applyTo.
  rewrite writeSummary_run. simpl.
  set (r := recordSummary E _ _).
  assert (Hc : cleanupOldRules fault (keepFilesOf r) true (mkStore (disk st) r) =
               (inl (match disk st with
                     | Some D => filter (stale (keepFilesOf r)) (names D)
                     | None => []
                     end), mkStore (disk st) r)).
  { rewrite cleanupOldRules_dry. simpl.
    destruct (disk st) as [D|]; [|reflexivity].
    rewrite Hrd by discriminate. reflexivity. }
  destruct (classifySummary E (createSummary d now)); simpl; rewrite Hc; reflexivity.
Qed.

Lemma NoDup_fold_store (E : list ExistingRuleFile.t) (ts : list (string * string)) :
  forall D, NoDup (names D) -> NoDup (names (fold_left (store place E) ts D)).
Proof.
  induction ts as [|t ts IH]; intros D H; simpl; [exact H|].
  apply IH. unfold store.
  destruct (classify E _ _); try destruct (inRulesDir place _);
    auto using NoDup_write.
Qed.

(** The pass when no operation fails. *)
Lemma writeRulesTry_exact (d : AnalysisData) (now : string) (rulesDir : option Dir) :
  (forall op, fault op = None) ->
  NoDup (names (dirOf rulesDir)) ->
  writeRulesTry fault place d false now (mkStore rulesDir freshResult) =
    (inl (finalResult (snapshot (dirOf rulesDir)) d now),
     mkStore (Some (finalDir place (snapshot (dirOf rulesDir)) d now (dirOf rulesDir)))
             (finalResult (snapshot (dirOf rulesDir)) d now)).
Proof.
  intros Hf Hnd. rewrite writeRulesTry_unfold.
  set (D0 := dirOf rulesDir) in *. set (E := snapshot D0).
  assert (H1 : unless false (ensureRulesDirectory fault) (mkStore rulesDir freshResult) =
               (inl tt, mkStore (Some D0) freshResult)).
  { unfold unless. rewrite ensureRulesDirectory_run. simpl.
    destruct rulesDir; [reflexivity|]. now rewrite Hf. }
  rewrite H1.
  destruct (readExistingRules_run (mkStore (Some D0) freshResult)) as (Hs & _ & HE).
  specialize (HE (Hf _) (fun n => Hf _)). simpl in HE.
  destruct (readExistingRules fault _) as [o st1]. simpl in Hs, HE. subst o st1.
  fold E. rewrite forEach_exact by (right; split; [auto | discriminate]).
  simpl applyTo. simpl result.
  rewrite writeSummary_run. simpl. rewrite Hf.
  set (D1 := fold_left (store place E) (targets d) D0).
  assert (Hnd1 : NoDup (names D1)) by now apply NoDup_fold_store.
  fold (finalResult E d now). unfold finalDir, storeSummary. fold D1.
  destruct (classifySummary E (createSummary d now));
    erewrite cleanupOldRules_exact; eauto using NoDup_write; reflexivity.
Qed.

(** *** What a pass keeps true of the store *)

Lemma forEach_preserves {A : Type} (I : Store -> Prop) (body : A -> M unit)
      (xs : list A) :
  (forall x st, In x xs -> I st -> I (snd (body x st))) ->
  forall st, I st -> I (snd (forEach body xs st)).
Proof.
  induction xs as [|x xs IH]; intros Hbody st Hst; simpl; [exact Hst|].
  unfold bind. pose proof (Hbody x st (or_introl eq_refl) Hst) as Hx.
  destruct (body x st) as [[u|msg] st1]; simpl in *; [|exact Hx].
  apply IH; auto.
Qed.

Lemma tracked_ext (dryRun : bool) (D0 : Dir) (W : list (string * string))
      (a b : Store) :
  dirOf (disk b) = dirOf (disk a) -> result b = result a ->
  tracked dryRun D0 W a -> tracked dryRun D0 W b.
Proof. unfold tracked. intros -> ->. auto. Qed.

Lemma written_push (o : Outcome) (f x : string) (r : RulesManagerResult.t) :
  In x (created (push o f r) ++ updated (push o f r))%list ->
  (x = f /\ o <> Unchanged) \/ In x (created r ++ updated r)%list.
Proof.
  destruct o; simpl; rewrite ?in_app_iff; simpl;
    intuition (subst; (left; split; [reflexivity | discriminate]) || auto).
Qed.

Lemma tracked_push (dryRun : bool) (D0 : Dir) (W : list (string * string))
      (rulesDir : option Dir) (r : RulesManagerResult.t) (o : Outcome) (f : string) :
  o = Unchanged \/ dryRun = true ->
  tracked dryRun D0 W (mkStore rulesDir r) ->
  tracked dryRun D0 W (mkStore rulesDir (push o f r)).
Proof.
  intros Ho [Hn Hw]. split; [exact Hn|]. simpl in *.
  intros Hdry Hplain x Hx. apply written_push in Hx.
  destruct Hx as [[_ Hx]|Hx]; [|auto]. destruct Ho; congruence.
Qed.

Lemma tracked_write (dryRun : bool) (D0 : Dir) (W : list (string * string))
      (D : Dir) (r : RulesManagerResult.t) (o : Outcome) (f m : string) :
  In (f, m) W ->
  tracked dryRun D0 W (mkStore (Some D) r) ->
  tracked dryRun D0 W (mkStore (Some (write (lastSegment f) m D)) (push o f r)).
Proof.
  intros HW [Hn Hw]. split; simpl in *.
  - intros n Hin. apply In_names_write in Hin. destruct Hin as [->|Hin]; [|auto].
    right. apply in_map_iff. exists (f, m). split; [reflexivity | exact HW].
  - intros Hdry Hplain x Hx.
    rewrite (lastSegment_plain f)
      by (apply Hplain; change f with (fst (f, m)); now apply in_map).
    rewrite lookup_write.
    destruct (String.eqb_spec f x) as [->|Hne]; [eauto|].
    apply written_push in Hx. destruct Hx as [[Hx _]|Hx]; [congruence | auto].
Qed.

(** A document written outside the directory has a name that is not a
    single component. *)
Lemma tracked_elsewhere (dryRun : bool) (D0 : Dir) (W : list (string * string))
      (rulesDir : option Dir) (r : RulesManagerResult.t) (o : Outcome) (f m : string) :
  In (f, m) W ->
  inRulesDir place f = false ->
  tracked dryRun D0 W (mkStore rulesDir r) ->
  tracked dryRun D0 W (mkStore rulesDir (push o f r)).
Proof.
  intros HW Hout [Hn Hw]. split; [exact Hn|]. simpl in *.
  intros Hdry Hplain x Hx. unfold inRulesDir in Hout.
  rewrite (Hplain f) in Hout by (change f with (fst (f, m)); now apply in_map).
  discriminate.
Qed.

Lemma In_target_targets (entry : string * option RuleCategory.t) (d : AnalysisData)
      (t : string * string) :
  In entry d -> In t (target entry) -> In t (targets d).
Proof. intros Hd Ht. unfold targets. apply in_flat_map. eauto. Qed.

Lemma processCategory_tracked (dryRun : bool) (D0 : Dir) (W : list (string * string))
      (E : list ExistingRuleFile.t) (entry : string * option RuleCategory.t)
      (st : Store) :
  (forall t, In t (target entry) -> In t W) ->
  tracked dryRun D0 W st ->
  tracked dryRun D0 W (snd (processCategory fault place dryRun E entry st)).
Proof.
  intros HW Hst. rewrite processCategory_run.
  destruct (target entry) as [|[f m] ts]; [exact Hst|].
  specialize (HW (f, m) (or_introl eq_refl)). destruct st as [rulesDir r].
  unfold record, entryOf. cbn [fst snd disk result].
  destruct (classify E f m) eqn:Hc; destruct dryRun; cbn [fst snd];
    try (apply tracked_push; [auto | exact Hst]);
    (destruct (fault (writeFile f)); [exact Hst|];
     destruct (inRulesDir place f) eqn:Hp; cbn [fst snd];
     [destruct rulesDir as [D|]; [|exact Hst]; cbn [fst snd];
      now apply tracked_write
     |now apply (tracked_elsewhere _ D0 W rulesDir r _ f m)]).
Qed.

Lemma writeSummary_tracked (dryRun : bool) (D0 : Dir) (W : list (string * string))
      (E : list ExistingRuleFile.t) (summary : string) (st : Store) :
  In (summaryFilename, summary) W ->
  tracked dryRun D0 W st ->
  tracked dryRun D0 W (snd (writeSummary fault place dryRun E summary st)).
Proof.
  intros HW Hst. rewrite writeSummary_run. destruct st as [rulesDir r].
  unfold recordSummary. cbn [fst snd disk result].
  destruct (classifySummary E summary) eqn:Hc; destruct dryRun; cbn [fst snd];
    try (apply tracked_push; [auto | exact Hst]);
    try (destruct (existsb _ (unchanged r)); [exact Hst|];
         apply tracked_push; [auto | exact Hst]);
    (destruct (fault (writeFile summaryFilename)); [exact Hst|];
     destruct rulesDir as [D|]; [|exact Hst]; cbn [fst snd];
     exact (tracked_write _ D0 W D r _ summaryFilename summary HW Hst)).
Qed.

Lemma stale_kept (keepFiles : list string) (f : string) :
  In f keepFiles -> stale keepFiles f = false.
Proof.
  intros H. unfold stale, lowerIn.
  assert (Hx : existsb (String.eqb (toLowerCase f)) (map toLowerCase keepFiles) = true).
  { apply existsb_exists. exists (toLowerCase f).
    split; [now apply in_map | apply String.eqb_refl]. }
  now rewrite Hx.
Qed.

Lemma cleanupOldRules_tracked (dryRun : bool) (D0 : Dir) (W : list (string * string))
      (st : Store) :
  tracked dryRun D0 W st ->
  tracked dryRun D0 W (snd (cleanupOldRules fault (keepFilesOf (result st)) dryRun st)).
Proof.
  intros [Hn Hw].
  destruct (cleanupOldRules_frame (keepFilesOf (result st)) dryRun st) as (Hr & Hsub & Hl).
  simpl in Hr, Hsub, Hl. split.
  - intros n Hin. auto.
  - intros Hdry Hplain f Hf. rewrite Hr in Hf. rewrite Hl; [auto|].
    apply stale_kept. unfold keepFilesOf. rewrite app_assoc. apply in_or_app. now left.
Qed.

(** All along a pass, aborted or not, a file of the directory is an old
    one or a document of this pass, and a file listed as created or
    updated by a run that is not dry is on the disk. *)
Lemma writeRulesTry_tracked (d : AnalysisData) (dryRun : bool) (now : string)
      (rulesDir : option Dir) :
  tracked dryRun (dirOf rulesDir) (documents d now)
          (snd (writeRulesTry fault place d dryRun now (mkStore rulesDir freshResult))).
Proof.
  set (W := documents d now). set (D0 := dirOf rulesDir).
  assert (T0 : tracked dryRun D0 W (mkStore rulesDir freshResult)).
  { split; simpl; [auto | intros _ _ f []]. }
  rewrite writeRulesTry_unfold.
  destruct (ensure_step dryRun (mkStore rulesDir freshResult)) as (Hr1 & Hd1 & _).
  assert (T1 := tracked_ext dryRun D0 W _ _ Hd1 Hr1 T0). clear Hr1 Hd1.
  destruct (unless dryRun _ _) as [[u|msg] st1]; [|exact T1]. simpl in T1.
  destruct (readExistingRules_run st1) as (Hs & _).
  destruct (readExistingRules fault st1) as [[E|msg] st1']; simpl in Hs; subst st1';
    [|exact T1].
  assert (T2 : tracked dryRun D0 W (snd (forEach (processCategory fault place dryRun E) d st1))).
  { apply forEach_preserves; [|exact T1]. intros entry st Hin.
    apply processCategory_tracked. intros t Ht. right.
    eapply In_target_targets; eauto. }
  destruct (forEach _ d st1) as [[u2|msg] st2]; [|exact T2]. simpl in T2.
  assert (T3 := writeSummary_tracked dryRun D0 W E (createSummary d now) st2
                  (or_introl eq_refl) T2).
  destruct (writeSummary _ _ _ _ _ st2) as [[u3|msg] st3]; [|exact T3]. simpl in T3.
  assert (T4 := cleanupOldRules_tracked dryRun D0 W st3 T3).
  destruct (cleanupOldRules _ _ _ st3) as [[l|msg] st4]; exact T4.
Qed.

End SyncFacts.

(* ================================================================= *)
(** ** Cleanup, dry run and abort *)

Section PassTheorems.

Import Fs RulesManager RulesManagerResult Pure.

Variable fault : Faults.
Variable place : Place.

Lemma stale_spec (keepFiles : list string) (n : string) :
  stale keepFiles n = true <->
  isRuleFile n = true /\ ~ In (toLowerCase n) (map toLowerCase keepFiles).
Proof.
  unfold stale, lowerIn. rewrite andb_true_iff, negb_true_iff.
  split; intros [H1 H2].
  - split; [exact H2|]. intros Hin.
    assert (Hx : existsb (String.eqb (toLowerCase n)) (map toLowerCase keepFiles) = true).
    { apply existsb_exists. exists (toLowerCase n). split; [exact Hin | apply String.eqb_refl]. }
    congruence.
  - split; [|exact H1].
    destruct (existsb _ _) eqn:Hx; [|reflexivity].
    apply existsb_exists in Hx. destruct Hx as (x & Hin & Hx).
    apply String.eqb_eq in Hx. subst x. tauto.
Qed.

(** C4 (as amended).  When no operation fails, the cleanup deletes
    exactly the files with a recognised extension whose lower-cased name
    is not the lower-cased form of a name to keep (a dry run deletes
    nothing and reports the same names), and it deletes nothing when
    every file with a recognised extension is among the names to keep. *)
Theorem cleanupOldRules_removes_stale
  (keepFiles : list string) (D : Dir) (r : RulesManagerResult.t) :
  fault readdir = None -> (forall n, fault (unlink n) = None) ->
  NoDup (names D) ->
  cleanupOldRules fault keepFiles false (mkStore (Some D) r) =
    (inl (filter (stale keepFiles) (names D)),
     mkStore (Some (filter (fun e => negb (stale keepFiles (fst e))) D)) r) /\
  cleanupOldRules fault keepFiles true (mkStore (Some D) r) =
    (inl (filter (stale keepFiles) (names D)), mkStore (Some D) r) /\
  (forall n, stale keepFiles n = true <->
             isRuleFile n = true /\
             ~ In (toLowerCase n) (map toLowerCase keepFiles)) /\
  ((forall n, In n (names D) -> isRuleFile n = true -> In n keepFiles) ->
   cleanupOldRules fault keepFiles false (mkStore (Some D) r) =
     (inl [], mkStore (Some D) r)).
Proof.
  intros Hr Hu Hnd.
  assert (Hreal := cleanupOldRules_exact fault keepFiles (mkStore (Some D) r) D
                     Hr Hu eq_refl Hnd).
  unfold sweep in Hreal. simpl in Hreal.
  split; [exact Hreal|]. split.
  - rewrite cleanupOldRules_dry. simpl. now rewrite Hr.
  - split; [apply stale_spec|]. intros Hkeep. rewrite Hreal.
    assert (Hs : forall n, In n (names D) -> stale keepFiles n = false).
    { intros n Hn. destruct (isRuleFile n) eqn:Hrf.
      - apply stale_kept. auto.
      - unfold stale. rewrite Hrf. apply andb_false_r. }
    clear -Hs. induction D as [|[x c] D' IH]; simpl in *; [reflexivity|].
    rewrite (Hs x) by auto. simpl.
    assert (IH' := IH (fun n Hn => Hs n (or_intror Hn))).
    injection IH' as H1 H2. now rewrite H1, H2.
Qed.



End PassTheorems.

(* ================================================================= *)
(** ** Skipped categories and the fallback *)

Section SkipTheorems.

Import Fs RulesManager RulesManagerResult Pure.

Variable fault : Faults.
Variable place : Place.

Lemma keepFilesOf_push (o : Outcome) (f x : string) (r : RulesManagerResult.t) :
  In x (keepFilesOf (push o f r)) <-> x = f \/ In x (keepFilesOf r).
Proof.
  unfold keepFilesOf. destruct o; simpl; rewrite !in_app_iff; simpl;
    intuition congruence.
Qed.

Lemma keepFilesOf_fold (E : list ExistingRuleFile.t) (ts : list (string * string))
      (x : string) :
  forall r, In x (keepFilesOf (fold_left (record E) ts r)) <->
            In x (keepFilesOf r) \/ In x (map fst ts).
Proof.
  induction ts as [|t ts IH]; intros r; simpl; [tauto|].
  rewrite IH. unfold record. rewrite keepFilesOf_push. intuition congruence.
Qed.

Lemma keepFilesOf_summary (E : list ExistingRuleFile.t) (summary x : string)
      (r : RulesManagerResult.t) :
  In x (keepFilesOf (recordSummary E summary r)) <->
  x = summaryFilename \/ In x (keepFilesOf r).
Proof.
  unfold recordSummary.
  destruct (classifySummary E summary); try apply keepFilesOf_push.
  destruct (existsb _ (unchanged r)) eqn:Hx; [|apply keepFilesOf_push].
  split; [tauto|]. intros [->|H]; [|exact H].
  apply existsb_exists in Hx. destruct Hx as (y & Hy & Heq).
  apply String.eqb_eq in Heq. subst y.
  unfold keepFilesOf. rewrite !in_app_iff. tauto.
Qed.

(** The names a pass lists: the summary and the targets. *)
Lemma finalResult_members (E : list ExistingRuleFile.t) (d : AnalysisData)
      (now x : string) :
  In x (keepFilesOf (finalResult E d now)) <->
  x = summaryFilename \/ In x (map fst (targets d)).
Proof.
  unfold finalResult. rewrite keepFilesOf_summary, keepFilesOf_fold.
  unfold keepFilesOf. simpl. tauto.
Qed.

Lemma In_targets (d : AnalysisData) (t : string * string) :
  In t (targets d) ->
  exists k c, In (k, Some c) d /\ skipped (Some c) = false /\
              t = (generateFilename k, convertToMDC k c).
Proof.
  unfold targets. rewrite in_flat_map. intros ([k [c|]] & Hin & Ht); simpl in Ht; [|tauto].
  destruct (List.length (RuleCategory.rules c) =? 0)%nat eqn:Hs; simpl in Ht; [tauto|].
  destruct Ht as [<-|[]]. exists k, c. auto.
Qed.

Lemma generateFilename_summary (k : string) : generateFilename k <> summaryFilename.
Proof.
  intros H. apply (generateFilename_not_summary k). now rewrite H.
Qed.





(** C9.  The fallback gives the five conventional categories, the raw
    text being the description of the one rule of [codePatterns]; the
    other four have no rule, so a pass over this data lists nothing but
    the file of [codePatterns] and the summary; and the orchestrator,
    given a failed analysis with a non-empty raw output, runs the pass
    over this data. *)
Theorem parseRawOutput_well_shaped (rawOutput : string) :
  rawOutput <> EmptyString ->
  exists codePatterns frameworks structure conventions bestPractices data,
    Analyzer.parseRawOutput rawOutput = Some data /\
    data = [ ("codePatterns", Some codePatterns); ("frameworks", Some frameworks);
             ("structure", Some structure); ("conventions", Some conventions);
             ("bestPractices", Some bestPractices) ] /\
    RuleCategory.rules codePatterns = [Rule.mk "Analysis Output" rawOutput None None] /\
    RuleCategory.rules frameworks = [] /\ RuleCategory.rules structure = [] /\
    RuleCategory.rules conventions = [] /\ RuleCategory.rules bestPractices = [] /\
    (forall dryRun now rulesDir f,
        In f (keepFilesOf (fst (writeRules fault place data dryRun now rulesDir))) ->
        f = "codepatterns.mdc" \/ f = "README.md") /\
    (forall failed dryRun now rulesDir,
        AnalysisResult.success failed = false ->
        AnalysisResult.rawOutput failed = Some rawOutput ->
        Index.generateRules fault place true failed dryRun now rulesDir =
        writeRules fault place data dryRun now rulesDir).
Proof.
  intros Hraw. do 6 eexists.
  split; [reflexivity|]. split; [reflexivity|].
  do 5 (split; [reflexivity|]). split.
  - intros dryRun now rulesDir f. unfold writeRules.
    destruct (writeRulesTry fault place _ dryRun now _) as [[r|msg] st'] eqn:Hrun; simpl.
    + apply writeRulesTry_result in Hrun. subst r.
      rewrite finalResult_members. simpl. intuition.
    + intros [].
  - intros failed dryRun now rulesDir Hs Hr.
    unfold Index.generateRules, Index.fallback. simpl. rewrite Hs, Hr. simpl.
    destruct rawOutput; [congruence | reflexivity].
Qed.

End SkipTheorems.

(* ================================================================= *)
(** ** Two passes in a row *)

Section SecondPass.

Import Fs RulesManager RulesManagerResult Pure.

Variable fault : Faults.
Variable place : Place.

Lemma existsb_findExisting (E : list ExistingRuleFile.t) (f : string) :
  existsb (String.eqb (toLowerCase f))
          (map (fun r => toLowerCase (ExistingRuleFile.filename r)) E) =
  match findExisting E f with Some _ => true | None => false end.
Proof.
  unfold findExisting. induction E as [|e E IH]; simpl; [reflexivity|].
  rewrite String.eqb_sym.
  destruct (toLowerCase (ExistingRuleFile.filename e) =? toLowerCase f);
    [reflexivity | exact IH].
Qed.

(** The summary takes the branch a target of its name would take. *)
Lemma classifySummary_classify (E : list ExistingRuleFile.t) (summary : string) :
  classifySummary E summary = classify E summaryFilename summary.
Proof.
  unfold classifySummary, classify. rewrite existsb_findExisting.
  destruct (findExisting E summaryFilename); reflexivity.
Qed.

Lemma existsb_names (f : string) (D : Dir) :
  existsb (String.eqb f) (names D) =
  match lookup f D with Some _ => true | None => false end.
Proof.
  induction D as [|[x c] D IH]; simpl; [reflexivity|].
  rewrite String.eqb_sym. destruct (x =? f); [reflexivity | exact IH].
Qed.

Lemma find_among (D : Dir) (f : string) (L : list string) :
  (forall n, In n L -> toLowerCase n = toLowerCase f -> n = f) ->
  find (fun r => toLowerCase (ExistingRuleFile.filename r) =? toLowerCase f)
       (map (fun n => ExistingRuleFile.mk n (contentOf D n)) (filter isRuleFile L)) =
  if isRuleFile f && existsb (String.eqb f) L
  then Some (ExistingRuleFile.mk f (contentOf D f)) else None.
Proof.
  induction L as [|n L IH]; intros Hex; simpl.
  - now rewrite andb_false_r.
  - assert (IH' := IH (fun x Hx => Hex x (or_intror Hx))). clear IH.
    destruct (String.eqb_spec f n) as [<-|Hne]; simpl.
    + destruct (isRuleFile f) eqn:Hr; simpl; [|exact IH'].
      now rewrite String.eqb_refl.
    + destruct (isRuleFile n) eqn:Hr; simpl; [|exact IH'].
      destruct (String.eqb_spec (toLowerCase n) (toLowerCase f)) as [Heq|_];
        [|exact IH'].
      elim Hne. symmetry. apply Hex; [now left | exact Heq].
Qed.

(** Against the snapshot of a directory whose names are exact for [f],
    the branch is read off the file of that very name. *)
Lemma classify_snapshot (D : Dir) (f m : string) :
  (forall n, In n (names D) -> toLowerCase n = toLowerCase f -> n = f) ->
  isRuleFile f = true ->
  classify (snapshot D) f m =
    match lookup f D with
    | Some c => if needsUpdate c m then Updated else Unchanged
    | None => Created
    end.
Proof.
  intros Hex Hr. unfold classify, findExisting, snapshot.
  rewrite (find_among D f (names D) Hex), Hr, existsb_names. simpl.
  unfold contentOf. destruct (lookup f D); reflexivity.
Qed.

(** A document whose name is a single component is stored under it. *)
Lemma store_plain (E : list ExistingRuleFile.t) (D : Dir) (t : string * string) :
  occurs "/" (fst t) = false ->
  store place E D t =
    match classify E (fst t) (snd t) with
    | Unchanged => D
    | _ => write (fst t) (snd t) D
    end.
Proof.
  intros H. unfold store, entryOf, inRulesDir.
  now rewrite H, (lastSegment_plain _ H).
Qed.

Lemma entries_plain (ts : list (string * string)) :
  plainNames (map fst ts) -> map entryOf ts = map fst ts.
Proof.
  intros H. apply map_ext_in. intros t Ht.
  apply lastSegment_plain, H. now apply in_map.
Qed.

Lemma lookup_fold_other (E : list ExistingRuleFile.t) (f : string)
      (ts : list (string * string)) :
  ~ In f (map entryOf ts) ->
  forall D, lookup f (fold_left (store place E) ts D) = lookup f D.
Proof.
  induction ts as [|t ts IH]; intros Hf D; simpl; [reflexivity|].
  simpl in Hf. rewrite IH by tauto. unfold store.
  destruct (classify E _ _); try reflexivity;
    (destruct (inRulesDir place (fst t)); [|reflexivity];
     rewrite lookup_write; destruct (String.eqb_spec (entryOf t) f);
     [tauto | reflexivity]).
Qed.

Lemma lookup_fold_target (E : list ExistingRuleFile.t) (f m : string)
      (ts : list (string * string)) :
  plainNames (map fst ts) -> NoDup (map fst ts) -> In (f, m) ts ->
  forall D,
    lookup f (fold_left (store place E) ts D) =
    match classify E f m with
    | Unchanged => lookup f D
    | _ => Some m
    end.
Proof.
  induction ts as [|t ts IH]; intros Hpl Hnd Hin D; simpl in *; [tauto|].
  assert (Hpl' : plainNames (map fst ts)) by (intros x Hx; apply Hpl; now right).
  assert (Ht0 : occurs "/" (fst t) = false) by (apply Hpl; now left).
  inversion Hnd as [|? ? Ht Hnd']; subst.
  rewrite (store_plain E D t Ht0).
  destruct Hin as [->|Hin].
  - rewrite lookup_fold_other by (rewrite entries_plain; assumption). simpl.
    destruct (classify E f m); try reflexivity;
      rewrite lookup_write, String.eqb_refl; reflexivity.
  - rewrite (IH Hpl' Hnd' Hin).
    assert (Hne : fst t <> f).
    { intros <-. apply Ht. change (fst t) with (fst (fst t, m)). now apply in_map. }
    destruct (classify E f m); try reflexivity.
    destruct (classify E (fst t) (snd t)); try reflexivity;
      (rewrite lookup_write; destruct (String.eqb_spec (fst t) f); [tauto | reflexivity]).
Qed.

Lemma fold_record_unchanged (E : list ExistingRuleFile.t) (ts : list (string * string)) :
  (forall t, In t ts -> classify E (fst t) (snd t) = Unchanged) ->
  forall r,
    fold_left (record E) ts r =
    mk (success r) (created r) (updated r) (unchanged r ++ map fst ts)%list (error r).
Proof.
  induction ts as [|t ts IH]; intros Hu r; simpl.
  - rewrite app_nil_r. now destruct r.
  - rewrite IH by auto with datatypes. unfold record.
    rewrite (Hu t) by auto with datatypes. simpl. now rewrite <- app_assoc.
Qed.

Lemma target_name (d : AnalysisData) (f : string) :
  In f (map fst (targets d)) -> exists k, f = generateFilename k.
Proof.
  intros H. apply in_map_iff in H. destruct H as (t & <- & Ht).
  apply In_targets in Ht. destruct Ht as (k & c & _ & _ & ->). now exists k.
Qed.

(** The names a pass looks up are exact among themselves. *)
Lemma lookedUp_exact (d : AnalysisData) (n f : string) :
  In n (summaryFilename :: map fst (targets d)) ->
  In f (summaryFilename :: map fst (targets d)) ->
  toLowerCase n = toLowerCase f -> n = f.
Proof.
  intros [<-|Hn] [<-|Hf] Heq; [reflexivity | | |].
  - apply target_name in Hf. destruct Hf as [k ->].
    symmetry in Heq. now apply generateFilename_not_summary in Heq.
  - apply target_name in Hn. destruct Hn as [k ->].
    now apply generateFilename_not_summary in Heq.
  - apply target_name in Hn. destruct Hn as [k ->].
    apply target_name in Hf. destruct Hf as [k' ->].
    now rewrite !generateFilename_lower in Heq.
Qed.

Lemma lookedUp_isRuleFile (d : AnalysisData) (f : string) :
  In f (summaryFilename :: map fst (targets d)) -> isRuleFile f = true.
Proof.
  intros [<-|Hf]; [reflexivity|].
  apply target_name in Hf. destruct Hf as [k ->]. apply generateFilename_isRuleFile.
Qed.

(** After a pass without failure every document of the pass has, under
    its own name, a file that compares equal to it. *)
Lemma finalDir_settled (d : AnalysisData) (now : string) (D0 : Dir) (f m : string) :
  plainNames (map fst (targets d)) ->
  NoDup (map fst (targets d)) ->
  exactNames D0 (summaryFilename :: map fst (targets d)) ->
  In (f, m) (documents d now) ->
  exists c, lookup f (finalDir place (snapshot D0) d now D0) = Some c /\
            needsUpdate c m = false.
Proof.
  intros Hpl Hnd Hex Hin.
  assert (Hlooked : In f (summaryFilename :: map fst (targets d))).
  { change (In (fst (f, m)) (map fst (documents d now))). now apply in_map. }
  assert (Hrule := lookedUp_isRuleFile d f Hlooked).
  assert (Hexf : forall n, In n (names D0) -> toLowerCase n = toLowerCase f -> n = f).
  { intros n Hn. now apply Hex. }
  unfold finalDir, sweep.
  rewrite (lookup_filter (fun n => negb (stale _ n))).
  rewrite stale_kept by (apply finalResult_members; destruct Hlooked as [<-|H]; [now left | now right]).
  cbn [negb]. unfold storeSummary. rewrite classifySummary_classify.
  pose proof (classify_snapshot D0 f m Hexf Hrule) as Hcls.
  destruct Hin as [[= <- <-]|Hin].
  - assert (Hsum : ~ In summaryFilename (map fst (targets d))).
    { intros H. apply target_name in H. destruct H as [k H].
      symmetry in H. now apply generateFilename_summary in H. }
    destruct (classify (snapshot D0) summaryFilename (createSummary d now)) eqn:Hc;
      try (rewrite lookup_write, String.eqb_refl; eexists; split;
           [reflexivity | apply needsUpdate_refl]).
    rewrite lookup_fold_other by (rewrite entries_plain; assumption).
    destruct (lookup summaryFilename D0) as [c|]; [|discriminate].
    exists c. split; [reflexivity|]. now destruct (needsUpdate c _).
  - assert (Hne : summaryFilename <> f).
    { intros <-. apply in_map with (f := fst) in Hin. apply target_name in Hin.
      destruct Hin as [k H]. symmetry in H. now apply generateFilename_summary in H. }
    assert (Hl : lookup f (match classify (snapshot D0) summaryFilename (createSummary d now) with
                           | Unchanged => fold_left (store place (snapshot D0)) (targets d) D0
                           | _ => write summaryFilename (createSummary d now)
                                    (fold_left (store place (snapshot D0)) (targets d) D0)
                           end) =
                 lookup f (fold_left (store place (snapshot D0)) (targets d) D0)).
    { destruct (classify _ summaryFilename _); try reflexivity;
        (rewrite lookup_write; destruct (String.eqb_spec summaryFilename f);
         [tauto | reflexivity]). }
    rewrite Hl, (lookup_fold_target _ f m (targets d) Hpl Hnd Hin).
    destruct (classify (snapshot D0) f m) eqn:Hc;
      try (eexists; split; [reflexivity | apply needsUpdate_refl]).
    destruct (lookup f D0) as [c|]; [|discriminate].
    exists c. split; [reflexivity|]. now destruct (needsUpdate c m).
Qed.

(** C3 (as amended).  Take data whose categories with rules derive
    pairwise different file names that hold no path separator, and a
    directory in which no name differs only by case from a name the pass
    looks up.  When no operation fails, the second of two passes in a row
    creates nothing, updates no category file and finds every category
    file unchanged; the summary is the only file it can update, and it
    does update it when the two passes read different clock values. *)
Theorem writeRules_second_pass
  (d : AnalysisData) (now1 now2 : string) (rulesDir : option Dir) :
  (forall op, fault op = None) ->
  NoDup (names (dirOf rulesDir)) ->
  NoDup (map fst (targets d)) ->
  plainNames (map fst (targets d)) ->
  exactNames (dirOf rulesDir) (summaryFilename :: map fst (targets d)) ->
  let second :=
    fst (writeRules fault place d false now2
           (snd (writeRules fault place d false now1 rulesDir))) in
  success second = true /\
  created second = [] /\
  (forall f, In f (updated second) -> f = summaryFilename) /\
  (forall f, In f (map fst (targets d)) -> In f (unchanged second)) /\
  (occursWhiteSpace now1 = false -> occursWhiteSpace now2 = false ->
   now1 <> now2 -> updated second = [summaryFilename]).
Proof.
  intros Hf Hnd Hts Hpl Hex.
  unfold writeRules at 2.
  rewrite (writeRulesTry_exact fault place d now1 rulesDir Hf Hnd). cbn [snd disk].
  pose proof (writeRulesTry_tracked fault place d false now1 rulesDir) as [Hframe _].
  rewrite (writeRulesTry_exact fault place d now1 rulesDir Hf Hnd) in Hframe.
  cbn [snd disk dirOf] in Hframe.
  set (D0 := dirOf rulesDir) in *.
  set (D1 := finalDir place (snapshot D0) d now1 D0) in *.
  assert (Hnd1 : NoDup (names D1)).
  { unfold D1, finalDir, sweep. apply NoDup_filter_names. unfold storeSummary.
    destruct (classifySummary _ _); auto using NoDup_write, NoDup_fold_store. }
  assert (Hex1 : exactNames D1 (summaryFilename :: map fst (targets d))).
  { intros n f Hn Hfin Heq. destruct (Hframe n Hn) as [H0|HW].
    - now apply Hex.
    - apply (lookedUp_exact d); [|exact Hfin|exact Heq].
      unfold documents in HW. cbn [map] in HW.
      rewrite (entries_plain _ Hpl) in HW. exact HW. }
  unfold writeRules.
  rewrite (writeRulesTry_exact fault place d now2 (Some D1) Hf Hnd1). cbn [fst dirOf].
  assert (Hcls : forall t, In t (targets d) ->
                           classify (snapshot D1) (fst t) (snd t) = Unchanged).
  { intros [f m] Ht. cbn [fst snd].
    destruct (finalDir_settled d now1 D0 f m Hpl Hts Hex (or_intror Ht)) as (c & Hc & Hu).
    fold D1 in Hc.
    assert (Hin : In f (summaryFilename :: map fst (targets d))).
    { right. change f with (fst (f, m)). now apply in_map. }
    rewrite classify_snapshot.
    - now rewrite Hc, Hu.
    - intros n Hn. now apply Hex1.
    - now apply (lookedUp_isRuleFile d). }
  destruct (finalDir_settled d now1 D0 summaryFilename (createSummary d now1)
              Hpl Hts Hex (or_introl eq_refl)) as (c & Hc & Hu).
  fold D1 in Hc.
  assert (Hsum : classifySummary (snapshot D1) (createSummary d now2) =
                 if needsUpdate c (createSummary d now2) then Updated else Unchanged).
  { rewrite classifySummary_classify, classify_snapshot.
    - now rewrite Hc.
    - intros n Hn. apply Hex1; [exact Hn | now left].
    - reflexivity. }
  unfold finalResult. rewrite (fold_record_unchanged _ _ Hcls).
  unfold recordSummary. rewrite Hsum. cbn [freshResult success created updated unchanged error app].
  destruct (needsUpdate c (createSummary d now2)) eqn:Hn2.
  - cbn. split; [reflexivity|]. split; [reflexivity|]. split.
    + now intros f [<-|[]].
    + split; [intros f Hin; exact Hin | reflexivity].
  - assert (Hclock : occursWhiteSpace now1 = false -> occursWhiteSpace now2 = false ->
                     now1 <> now2 -> False).
    { intros H1 H2 Hne.
      pose proof (createSummary_clock d now1 now2 c H1 H2 Hne Hu). congruence. }
    destruct (existsb _ _); cbn; (split; [reflexivity|]); (split; [reflexivity|]);
      (split; [now intros f []|]); (split; [|intros; exfalso; auto]).
    + intros f Hin. exact Hin.
    + intros f Hin. apply in_or_app. now left.
Qed.

End SecondPass.

(* ================================================================= *)
(** ** The properties at sample inputs *)

Import Fs RulesManager RulesManagerResult Pure Samples.

(** The example of the specification: one category with one rule, written
    to an empty directory, gives two files, both created. *)
Example writeRules_frameworks_created :
  fst (writeRules noFaults lexical frameworks false monday (Some [])) =
    mk true ["frameworks.mdc"; "README.md"] [] [] None /\
  names (dirOf (snd (writeRules noFaults lexical frameworks false monday (Some [])))) =
    ["frameworks.mdc"; "README.md"].
Proof. vm_compute. split; reflexivity. Qed.

(** The second example of the specification: the wrapper is opened once,
    and the pass over the data it holds, whose one category has no rule,
    writes the summary alone, with no entry. *)
Example analyzeCodebase_wrapper :
  Analyzer.analyzeCodebase Json.parse (Some 0)
    (Analyzer.dq "{'result':'{\'codePatterns\':{\'title\':\'X\',\'rules\':[]}}'}")
    EmptyString =
  AnalysisResult.mk true
    (Some (JObject [("codePatterns",
                     JObject [("title", JString "X"); ("rules", JArray [])])]))
    None
    (Some (Analyzer.dq "{'result':'{\'codePatterns\':{\'title\':\'X\',\'rules\':[]}}'}")).
Proof. vm_compute. reflexivity. Qed.

Example writeRules_wrapper_data :
  fst (writeRules noFaults lexical [("codePatterns", Some (withRules "X" []))] false monday (Some [])) =
    mk true ["README.md"] [] [] None /\
  names (dirOf (snd (writeRules noFaults lexical [("codePatterns", Some (withRules "X" []))]
                       false monday (Some [])))) = ["README.md"] /\
  summaryLines [("codePatterns", Some (withRules "X" []))] = EmptyString.
Proof. vm_compute. repeat split; reflexivity. Qed.

Example generateFilename_samples :
  generateFilename "codePatterns" = "codepatterns.mdc" /\
  generateFilename "Best  Practices" = "best-practices.mdc".
Proof. vm_compute. split; reflexivity. Qed.

Example needsUpdate_ignores_spacing :
  needsUpdate ("  a" ++ LF ++ LF ++ "b  c ") "a b c" = false /\
  needsUpdate "a b" "ab" = true.
Proof. vm_compute. split; reflexivity. Qed.

(** C3 refuted as stated: two keys that derive one file name make the
    second pass report that file as updated. *)
Lemma writeRules_second_pass_collision :
  In "a.mdc"
     (updated (fst (writeRules noFaults lexical colliding false tuesday
                      (snd (writeRules noFaults lexical colliding false monday (Some [])))))).
Proof. vm_compute. left. reflexivity. Qed.

(** Read at the same clock value, the summary is found unchanged. *)
Example writeRules_second_pass_same_clock :
  fst (writeRules noFaults lexical frameworks false monday
         (snd (writeRules noFaults lexical frameworks false monday (Some [])))) =
    mk true [] [] ["frameworks.mdc"; "README.md"] None.
Proof. vm_compute. reflexivity. Qed.

(** A file whose name differs by case from a derived name is compared
    again at every pass, and is never rewritten. *)
Example writeRules_second_pass_case :
  updated (fst (writeRules noFaults lexical frameworks false tuesday
                  (snd (writeRules noFaults lexical frameworks false monday
                          (Some [("Frameworks.mdc", "old")]))))) =
    ["frameworks.mdc"; "README.md"].
Proof. vm_compute. reflexivity. Qed.

Lemma writeRules_second_pass_witness :
  let second :=
    fst (writeRules noFaults lexical frameworks false tuesday
           (snd (writeRules noFaults lexical frameworks false monday None))) in
  success second = true /\
  created second = [] /\
  (forall f, In f (updated second) -> f = summaryFilename) /\
  (forall f, In f (map fst (targets frameworks)) -> In f (unchanged second)) /\
  (occursWhiteSpace monday = false -> occursWhiteSpace tuesday = false ->
   monday <> tuesday -> updated second = [summaryFilename]).
Proof.
  apply (writeRules_second_pass noFaults lexical frameworks monday tuesday None).
  - intros op. reflexivity.
  - constructor.
  - vm_compute. constructor; [intros [] | constructor].
  - intros f Hin. vm_compute in Hin. destruct Hin as [<-|[]]. reflexivity.
  - intros n f [].
Defined.

(** Where paths lead in a directory that none re-enters from above. *)
Example lexical_samples :
  lexical "./b.mdc" = true /\ lexical "a/../b.mdc" = true /\
  lexical "../evil.mdc" = false /\ lexical "a/b.mdc" = false.
Proof. vm_compute. repeat split; reflexivity. Qed.

(** Why the derived names are to hold no separator.  The file of the key
    [../evil] is written outside the directory, so the second pass finds
    none and lists it as created again. *)
Example writeRules_second_pass_outside :
  names (dirOf (snd (writeRules noFaults lexical outside false monday (Some [])))) =
    ["README.md"] /\
  created (fst (writeRules noFaults lexical outside false tuesday
                  (snd (writeRules noFaults lexical outside false monday (Some []))))) =
    ["../evil.mdc"].
Proof. vm_compute. split; reflexivity. Qed.

(** The file of the key [./b] is written as [b.mdc] and listed as
    [./b.mdc]: the cleanup of the same pass, which keeps the listed names,
    deletes it. *)
Example writeRules_dotted_swept :
  fst (writeRules noFaults lexical dotted false monday (Some [])) =
    mk true ["./b.mdc"; "README.md"] [] [] None /\
  names (dirOf (snd (writeRules noFaults lexical dotted false monday (Some [])))) =
    ["README.md"].
Proof. vm_compute. split; reflexivity. Qed.

(** C4 refuted as stated: a file whose name is not among the names to keep
    stays, because its lower-cased name is. *)
Lemma cleanupOldRules_compares_lower_case :
  isRuleFile "Notes.md" = true /\
  ~ In "Notes.md" ["notes.md"] /\
  cleanupOldRules noFaults ["notes.md"] false
    (mkStore (Some [("Notes.md", "x")]) freshResult) =
  (inl [], mkStore (Some [("Notes.md", "x")]) freshResult).
Proof.
  split; [reflexivity|]. split; [|reflexivity].
  intros [H|[]]. discriminate.
Qed.

Lemma cleanupOldRules_removes_stale_witness :
  cleanupOldRules noFaults ["keep.mdc"] false
    (mkStore (Some [("old.md", "x"); ("keep.mdc", "y"); ("data.json", "z")]) freshResult) =
  (inl ["old.md"], mkStore (Some [("keep.mdc", "y"); ("data.json", "z")]) freshResult).
Proof.
  apply (cleanupOldRules_removes_stale noFaults ["keep.mdc"]
           [("old.md", "x"); ("keep.mdc", "y"); ("data.json", "z")] freshResult).
  - reflexivity.
  - intros n. reflexivity.
  - repeat constructor; simpl; intuition discriminate.
Defined.




(** Why the derived names are to hold no separator: at the abort the key
    [./b] is recorded as created under a name that is not the name of the
    file written. *)
Example writeRules_abort_dotted :
  created (result (snd (writeRulesTry denySummary lexical dotted false monday
                          (mkStore (Some []) freshResult)))) = ["./b.mdc"] /\
  names (dirOf (snd (writeRules denySummary lexical dotted false monday (Some [])))) =
    ["b.mdc"].
Proof. vm_compute. split; reflexivity. Qed.


Lemma convertToMDC_alwaysApply_witness :
  exists flag : bool,
    convertToMDC "conventions" (withRules "Coding Conventions" [rule "R1" "D1"]) =
      "---" ++ LF ++ "description: Coding Conventions" ++ LF ++
      "alwaysApply: " ++ ofBool flag ++ LF ++ "---" ++ LF ++ LF ++
      "- **R1**: D1" ++ LF ++ LF
    /\ flag = true.
Proof.
  destruct (convertToMDC_alwaysApply_priority "conventions"
              (withRules "Coding Conventions" [rule "R1" "D1"]))
    as (flag & Htext & _ & _ & Hdefault).
  exists flag. split; [exact Htext|].
  apply Hdefault; [reflexivity | discriminate | right; reflexivity].
Defined.


(** Why no category with rules is to derive a path that ends in the file
    name of the empty category: the key [./b] writes [b.mdc], the file
    name of the empty category [b], and an abort before the cleanup leaves
    it there. *)
Example writeRules_empty_category_dotted :
  generateFilename "./b" <> generateFilename "b" /\
  names (dirOf (snd (writeRules denySummary lexical dottedShadow false monday (Some [])))) =
    ["b.mdc"].
Proof. vm_compute. split; [discriminate | reflexivity]. Qed.


Lemma parseRawOutput_well_shaped_witness :
  exists data,
    Analyzer.parseRawOutput "plain text" = Some data /\
    map fst data =
      ["codePatterns"; "frameworks"; "structure"; "conventions"; "bestPractices"] /\
    forall failed dryRun now rulesDir,
      AnalysisResult.success failed = false ->
      AnalysisResult.rawOutput failed = Some "plain text" ->
      Index.generateRules noFaults lexical true failed dryRun now rulesDir =
      writeRules noFaults lexical data dryRun now rulesDir.
Proof.
  destruct (parseRawOutput_well_shaped noFaults lexical "plain text")
    as (c1 & c2 & c3 & c4 & c5 & data & Hp & Hd & _ & _ & _ & _ & _ & _ & Hgen).
  - discriminate.
  - exists data. split; [exact Hp|]. split; [now rewrite Hd | exact Hgen].
Defined.

(* ================================================================= *)
(** * Further properties of the code *)

(** ** Trimming, normalising and comparing texts *)

Section TextFacts.

Lemma allWhiteSpace_append (a b : string) :
  allWhiteSpace (a ++ b) = allWhiteSpace a && allWhiteSpace b.
Proof.
  induction a as [|c a IH]; simpl; [reflexivity|].
  now rewrite IH, andb_assoc.
Qed.

Lemma trimStart_skip (w x : string) :
  allWhiteSpace w = true -> trimStart (w ++ x) = trimStart x.
Proof.
  induction w as [|c w IH]; simpl; [reflexivity|].
  intros H. apply andb_true_iff in H. destruct H as [-> H]. auto.
Qed.

Lemma trimStart_all (w : string) : allWhiteSpace w = true -> trimStart w = EmptyString.
Proof.
  intros H. rewrite <- (append_nil_r w). now rewrite trimStart_skip.
Qed.

Lemma trimEnd_all (w : string) : allWhiteSpace w = true -> trimEnd w = EmptyString.
Proof.
  induction w as [|c w IH]; simpl; [reflexivity|].
  intros H. apply andb_true_iff in H. destruct H as [Hc H].
  now rewrite (IH H), Hc.
Qed.

Lemma trimEnd_drop (x w : string) :
  allWhiteSpace w = true -> trimEnd (x ++ w) = trimEnd x.
Proof.
  intros H. induction x as [|c x IH]; simpl; [now apply trimEnd_all|].
  now rewrite IH.
Qed.

Lemma trim_drop (s w : string) :
  allWhiteSpace w = true -> trim (s ++ w) = trim s.
Proof.
  intros H. unfold trim. induction s as [|c s IH]; simpl.
  - now rewrite (trimStart_all w H).
  - destruct (isWhiteSpace c); [exact IH|].
    exact (trimEnd_drop (String c s) w H).
Qed.

Lemma trimStart_split (s : string) :
  exists w, allWhiteSpace w = true /\ s = w ++ trimStart s.
Proof.
  induction s as [|c s IH]; simpl.
  - exists EmptyString. auto.
  - destruct (isWhiteSpace c) eqn:Hc.
    + destruct IH as (w & Hw & Hs). exists (String c w). simpl.
      rewrite Hc, Hw. split; [reflexivity | now rewrite <- Hs].
    + exists EmptyString. auto.
Qed.

Lemma trimEnd_split (s : string) :
  exists w, allWhiteSpace w = true /\ s = trimEnd s ++ w.
Proof.
  induction s as [|c s IH]; simpl.
  - exists EmptyString. auto.
  - destruct IH as (w & Hw & Hs). destruct (trimEnd s) as [|x r] eqn:E.
    + simpl in Hs. subst s. destruct (isWhiteSpace c) eqn:Hc.
      * exists (String c w). simpl. now rewrite Hc, Hw.
      * exists w. auto.
    + exists w. split; [exact Hw|]. simpl. now rewrite Hs at 1.
Qed.

Lemma trim_split (s : string) :
  exists w1 w2, allWhiteSpace w1 = true /\ allWhiteSpace w2 = true /\
                s = w1 ++ trim s ++ w2.
Proof.
  destruct (trimStart_split s) as (w1 & H1 & Hs).
  destruct (trimEnd_split (trimStart s)) as (w2 & H2 & Ht).
  exists w1, w2. unfold trim. rewrite <- Ht. auto.
Qed.

Lemma trim_empty (s : string) :
  trim s = EmptyString <-> allWhiteSpace s = true.
Proof.
  split; intros H.
  - destruct (trim_split s) as (w1 & w2 & H1 & H2 & Hs).
    rewrite H in Hs. simpl in Hs. rewrite Hs, allWhiteSpace_append, H1, H2. reflexivity.
  - unfold trim. now rewrite (trimStart_all s H).
Qed.

Lemma startsWithWhiteSpace_trimStart (s : string) :
  startsWithWhiteSpace (trimStart s) = false.
Proof.
  induction s as [|c s IH]; simpl; [reflexivity|].
  destruct (isWhiteSpace c) eqn:Hc; [exact IH | simpl; exact Hc].
Qed.

Lemma startsWithWhiteSpace_trimEnd (s : string) :
  startsWithWhiteSpace s = false -> startsWithWhiteSpace (trimEnd s) = false.
Proof.
  destruct s as [|c s]; simpl; [reflexivity|]. intros Hc.
  destruct (trimEnd s); [rewrite Hc|]; simpl; auto.
Qed.

Lemma endsWithWhiteSpace_trimEnd (s : string) :
  endsWithWhiteSpace (trimEnd s) = false.
Proof.
  induction s as [|c s IH]; simpl; [reflexivity|].
  destruct (trimEnd s) as [|x r] eqn:E.
  - destruct (isWhiteSpace c) eqn:Hc; simpl; auto.
  - exact IH.
Qed.

Lemma trim_clean (s : string) :
  startsWithWhiteSpace (trim s) = false /\ endsWithWhiteSpace (trim s) = false.
Proof.
  unfold trim. split.
  - apply startsWithWhiteSpace_trimEnd, startsWithWhiteSpace_trimStart.
  - apply endsWithWhiteSpace_trimEnd.
Qed.

Lemma singleSpaced_spaces (t : string) :
  endsWithWhiteSpace t = false ->
  singleSpaced (replaceWhiteSpaceRuns " " t) = true.
Proof.
  induction t as [|c t IH]; [reflexivity|].
  cbn [replaceWhiteSpaceRuns]. destruct (isWhiteSpace c) eqn:Hc.
  - destruct t as [|c' t]; [simpl; congruence|].
    intros H. change (endsWithWhiteSpace (String c' t) = false) in H.
    specialize (IH H). destruct (isWhiteSpace c') eqn:Hc'; [exact IH|].
    assert (HR : replaceWhiteSpaceRuns " " (String c' t) =
                 String c' (replaceWhiteSpaceRuns " " t)).
    { cbn [replaceWhiteSpaceRuns]. now rewrite Hc'. }
    rewrite HR in *.
    change (singleSpaced (String " " (String c' (replaceWhiteSpaceRuns " " t))) = true).
    cbn [singleSpaced startsWithWhiteSpace] in *.
    change (isWhiteSpace " ") with true. cbv iota.
    rewrite Hc' in *. rewrite IH. reflexivity.
  - intros H. cbn [singleSpaced]. rewrite Hc.
    destruct t as [|c' t]; [reflexivity|]. apply IH. exact H.
Qed.

Lemma startsWithWhiteSpace_spaces (t : string) :
  startsWithWhiteSpace t = false ->
  startsWithWhiteSpace (replaceWhiteSpaceRuns " " t) = false.
Proof.
  destruct t as [|c t]; simpl; [reflexivity|]. intros Hc. rewrite Hc. simpl. exact Hc.
Qed.

Lemma singleSpaced_fixed (s : string) :
  singleSpaced s = true -> replaceWhiteSpaceRuns " " s = s.
Proof.
  induction s as [|c s IH]; [reflexivity|].
  cbn [singleSpaced replaceWhiteSpaceRuns]. destruct (isWhiteSpace c) eqn:Hc.
  - rewrite !andb_true_iff, !negb_true_iff. intros [[[Hsp Hst] Hne] Hs].
    apply Ascii.eqb_eq in Hsp. subst c.
    destruct s as [|c' s]; [discriminate|].
    simpl in Hst. rewrite Hst. now rewrite (IH Hs).
  - intros Hs. now rewrite (IH Hs).
Qed.

Lemma singleSpaced_end (s : string) :
  singleSpaced s = true -> endsWithWhiteSpace s = false.
Proof.
  induction s as [|c s IH]; [reflexivity|].
  cbn [singleSpaced]. destruct (isWhiteSpace c) eqn:Hc.
  - rewrite !andb_true_iff, !negb_true_iff. intros [[[_ _] Hne] Hs].
    destruct s as [|c' s]; [discriminate|]. exact (IH Hs).
  - intros Hs. destruct s as [|c' s]; [simpl; exact Hc | exact (IH Hs)].
Qed.

Lemma trimEnd_clean (s : string) :
  endsWithWhiteSpace s = false -> trimEnd s = s.
Proof.
  induction s as [|c s IH]; [reflexivity|].
  destruct s as [|x r].
  - simpl. now intros ->.
  - intros H. change (endsWithWhiteSpace (String x r) = false) in H.
    cbn [trimEnd] in *. now rewrite (IH H).
Qed.

Lemma trimStart_clean (s : string) :
  startsWithWhiteSpace s = false -> trimStart s = s.
Proof. destruct s as [|c s]; simpl; [reflexivity | now intros ->]. Qed.

Import RulesManager.

(** X1.  A normalised text has no white space at either end, and each
    white-space character in it is one space between two other
    characters. *)
Theorem normalize_shape (s : string) :
  startsWithWhiteSpace (normalize s) = false /\
  endsWithWhiteSpace (normalize s) = false /\
  singleSpaced (normalize s) = true.
Proof.
  destruct (trim_clean s) as [Hs He]. unfold normalize.
  assert (H := singleSpaced_spaces (trim s) He).
  split; [now apply startsWithWhiteSpace_spaces|].
  split; [now apply singleSpaced_end | exact H].
Qed.

Lemma normalize_fixed (s : string) :
  startsWithWhiteSpace s = false -> singleSpaced s = true -> normalize s = s.
Proof.
  intros Hs Hss. unfold normalize, trim.
  rewrite (trimStart_clean s Hs), (trimEnd_clean s (singleSpaced_end s Hss)).
  now apply singleSpaced_fixed.
Qed.

Lemma normalize_idem (s : string) : normalize (normalize s) = normalize s.
Proof.
  destruct (trim_clean s) as [Hs He]. unfold normalize at 2 3.
  apply normalize_fixed.
  - now apply startsWithWhiteSpace_spaces.
  - now apply singleSpaced_spaces.
Qed.

(** X2.  Normalising is idempotent, so a text and its normalised form are
    interchangeable on either side of the comparison. *)
Theorem needsUpdate_normalized (s other : string) :
  normalize (normalize s) = normalize s /\
  needsUpdate (normalize s) other = needsUpdate s other /\
  needsUpdate other (normalize s) = needsUpdate other s /\
  needsUpdate (normalize s) s = false.
Proof.
  unfold needsUpdate. rewrite normalize_idem, String.eqb_refl. auto.
Qed.

(** X3.  "No update needed" is an equivalence: it holds of a text and
    itself, it does not depend on the order of the two texts, it chains,
    and two texts it relates have the same characters other than white
    space, in the same order. *)
Theorem needsUpdate_equivalence (a b c : string) :
  needsUpdate a a = false /\
  needsUpdate a b = needsUpdate b a /\
  (needsUpdate a b = false -> needsUpdate b c = false -> needsUpdate a c = false) /\
  (needsUpdate a b = false -> strip a = strip b).
Proof.
  split; [apply needsUpdate_refl|]. split.
  - unfold needsUpdate. now rewrite String.eqb_sym.
  - split; [|apply needsUpdate_false_strip].
    unfold needsUpdate. rewrite !negb_false_iff, !String.eqb_eq. congruence.
Qed.

(** X4.  White space before and after a text does not count: the text
    with such white space around it normalises to the same text, and
    needs no update against the bare text. *)
Theorem needsUpdate_ignores_margins (w1 w2 s : string) :
  allWhiteSpace w1 = true -> allWhiteSpace w2 = true ->
  normalize (w1 ++ s ++ w2) = normalize s /\
  needsUpdate (w1 ++ s ++ w2) s = false.
Proof.
  intros H1 H2.
  assert (Hn : normalize (w1 ++ s ++ w2) = normalize s).
  { unfold normalize. f_equal. rewrite <- append_assoc, (trim_drop _ w2 H2).
    unfold trim. now rewrite (trimStart_skip w1 s H1). }
  split; [exact Hn|]. unfold needsUpdate. now rewrite Hn, String.eqb_refl.
Qed.

Lemma occursWhiteSpace_append (a b : string) :
  occursWhiteSpace (a ++ b) = occursWhiteSpace a || occursWhiteSpace b.
Proof.
  induction a as [|c a IH]; simpl; [reflexivity|]. now rewrite IH, orb_assoc.
Qed.

Lemma occursWhiteSpace_hyphens (s : string) :
  occursWhiteSpace (replaceWhiteSpaceRuns "-" s) = false.
Proof.
  induction s as [|c s IH]; [reflexivity|].
  cbn [replaceWhiteSpaceRuns]. destruct (isWhiteSpace c) eqn:Hc.
  - destruct s as [|c' s]; [reflexivity|].
    destruct (isWhiteSpace c'); [exact IH|].
    rewrite occursWhiteSpace_append, IH. reflexivity.
  - cbn [occursWhiteSpace]. now rewrite Hc, IH.
Qed.

Lemma toLowerChar_fixed (c : ascii) : toLowerChar (toLowerChar c) = toLowerChar c.
Proof. destruct c as [[] [] [] [] [] [] [] []]; reflexivity. Qed.

Lemma toLowerCase_fixed (s : string) : toLowerCase (toLowerCase s) = toLowerCase s.
Proof.
  induction s as [|c s IH]; simpl; [reflexivity|].
  now rewrite toLowerChar_fixed, IH.
Qed.

(** X5.  A derived file name holds no white space and no upper-case
    letter, ends in ".mdc" (a recognised extension), is never the name of
    the summary, not even up to case, and is the same for two keys that
    differ only by case. *)
Theorem generateFilename_shape (categoryName : string) :
  occursWhiteSpace (generateFilename categoryName) = false /\
  toLowerCase (generateFilename categoryName) = generateFilename categoryName /\
  endsWith (generateFilename categoryName) ".mdc" = true /\
  isRuleFile (generateFilename categoryName) = true /\
  toLowerCase (generateFilename categoryName) <> toLowerCase summaryFilename /\
  generateFilename (toLowerCase categoryName) = generateFilename categoryName.
Proof.
  split.
  { unfold generateFilename. rewrite occursWhiteSpace_append, occursWhiteSpace_hyphens.
    reflexivity. }
  split; [apply generateFilename_lower|].
  split; [apply endsWith_append|].
  split; [apply generateFilename_isRuleFile|].
  split; [apply generateFilename_not_summary|].
  unfold generateFilename. now rewrite toLowerCase_fixed.
Qed.

(** X6.  The version probe reports the agent installed exactly when the
    child exits with code 0 and prints something other than white space;
    the version is then what it printed without the white space around
    it; otherwise the error is the error output, or a fixed text when
    there is none. *)
Theorem checkCursorAgent_installed (code : option nat) (output errorOutput : string) :
  (CursorAgentCheck.installed (Analyzer.checkCursorAgent code output errorOutput) = true <->
   code = Some 0 /\ allWhiteSpace output = false) /\
  (CursorAgentCheck.installed (Analyzer.checkCursorAgent code output errorOutput) = true ->
   exists v w1 w2,
     Analyzer.checkCursorAgent code output errorOutput =
       CursorAgentCheck.mk true (Some v) None /\
     output = w1 ++ v ++ w2 /\
     allWhiteSpace w1 = true /\ allWhiteSpace w2 = true /\
     v <> EmptyString /\
     startsWithWhiteSpace v = false /\ endsWithWhiteSpace v = false) /\
  (CursorAgentCheck.installed (Analyzer.checkCursorAgent code output errorOutput) = false ->
   Analyzer.checkCursorAgent code output errorOutput =
     CursorAgentCheck.mk false None
       (Some (if errorOutput =? EmptyString
              then "cursor-agent command not found" else errorOutput))).
Proof.
  unfold Analyzer.checkCursorAgent.
  assert (Hz : Analyzer.isZero code = true <-> code = Some 0).
  { destruct code as [[|n]|]; simpl; split; congruence. }
  destruct (String.eqb_spec (trim output) EmptyString) as [He|He].
  - rewrite andb_false_r. simpl. apply trim_empty in He.
    split; [split; [discriminate | intros [_ H]; congruence]|].
    split; [discriminate|]. intros _. now destruct errorOutput.
  - assert (Hn : allWhiteSpace output = false).
    { destruct (allWhiteSpace output) eqn:H; [|reflexivity].
      apply trim_empty in H. contradiction. }
    rewrite andb_true_r. destruct (Analyzer.isZero code) eqn:Hc; simpl.
    + split; [split; [intros _; split; [now apply Hz | exact Hn] | reflexivity]|].
      split; [|discriminate]. intros _.
      destruct (trim_split output) as (w1 & w2 & H1 & H2 & Hs).
      destruct (trim_clean output) as [Hst Hen].
      exists (trim output), w1, w2. auto 10.
    + split; [split; [discriminate | intros [H _]; apply Hz in H; congruence]|].
      split; [discriminate|]. intros _. now destruct errorOutput.
Qed.

End TextFacts.

(* ================================================================= *)
(** ** The invoker and the orchestrator *)

Section OrchestratorFacts.

Variable JSON_parse : string -> json + string.

Variable fault : Faults.
Variable place : Place.

(** X7.  Whatever the exit code, the output and the parser, the answer of
    the invoker keeps the raw stdout, carries data exactly when it is a
    success and an error exactly when it is not; and a success comes only
    from exit code 0 and an stdout that holds an opening brace with a
    closing brace after it. *)
Theorem analyzeCodebase_answer (code : option nat) (stdout stderr : string) :
  AnalysisResult.rawOutput (Analyzer.analyzeCodebase JSON_parse code stdout stderr)
    = Some stdout /\
  (AnalysisResult.success (Analyzer.analyzeCodebase JSON_parse code stdout stderr) = true <->
   AnalysisResult.data (Analyzer.analyzeCodebase JSON_parse code stdout stderr) <> None) /\
  (AnalysisResult.success (Analyzer.analyzeCodebase JSON_parse code stdout stderr) = true <->
   AnalysisResult.error (Analyzer.analyzeCodebase JSON_parse code stdout stderr) = None) /\
  (AnalysisResult.success (Analyzer.analyzeCodebase JSON_parse code stdout stderr) = true ->
   code = Some 0 /\
   exists pre mid post, stdout = pre ++ "{" ++ mid ++ "}" ++ post).
Proof.
  unfold Analyzer.analyzeCodebase, Analyzer.parseFailure, Analyzer.failed.
  destruct (Analyzer.isZero code) eqn:Hz; simpl.
  - assert (Hc : code = Some 0) by (destruct code as [[|n]|]; simpl in Hz; congruence).
    destruct (matchObject stdout) as [m|] eqn:Hm; simpl.
    + assert (Hb : exists pre mid post, stdout = pre ++ "{" ++ mid ++ "}" ++ post).
      { destruct (matchObject_some _ _ Hm) as (pre & mid & post & Hs & Hmid & _).
        exists pre, mid, post. rewrite Hs, Hmid. simpl. now rewrite append_assoc. }
      destruct (JSON_parse m) as [parsed|msg]; simpl.
      * destruct (Analyzer.unwrapResult JSON_parse parsed) as [data|msg]; simpl;
          repeat split; try congruence; auto.
      * repeat split; try congruence; auto.
    + repeat split; try congruence.
  - repeat split; try congruence.
Qed.

Lemma push_ok (o : Outcome) (f : string) (r : RulesManagerResult.t) :
  success (push o f r) = success r /\ error (push o f r) = error r.
Proof. destruct o; auto. Qed.

Lemma finalResult_ok (E : list ExistingRuleFile.t) (d : AnalysisData) (now : string) :
  success (finalResult E d now) = true /\ error (finalResult E d now) = None.
Proof.
  unfold finalResult.
  assert (H : forall ts r, success (fold_left (record E) ts r) = success r /\
                           error (fold_left (record E) ts r) = error r).
  { induction ts as [|t ts IH]; intros r; simpl; [auto|].
    destruct (IH (record E r t)) as [-> ->]. apply push_ok. }
  destruct (H (targets d) freshResult) as [Hs He].
  unfold recordSummary. destruct (classifySummary E _);
    try (destruct (push_ok Created summaryFilename (fold_left (record E) (targets d) freshResult))
           as [-> ->]; auto);
    try (destruct (push_ok Updated summaryFilename (fold_left (record E) (targets d) freshResult))
           as [-> ->]; auto).
  destruct (existsb _ _); [auto|].
  destruct (push_ok Unchanged summaryFilename (fold_left (record E) (targets d) freshResult))
    as [-> ->]; auto.
Qed.

(** The two shapes of a result of [writeRules]. *)
Lemma writeRules_shape (d : AnalysisData) (dryRun : bool) (now : string)
      (rulesDir : option Dir) :
  (success (fst (writeRules fault place d dryRun now rulesDir)) = true /\
   error (fst (writeRules fault place d dryRun now rulesDir)) = None) \/
  (exists msg, fst (writeRules fault place d dryRun now rulesDir) = mk false [] [] [] (Some msg)).
Proof.
  unfold writeRules.
  destruct (writeRulesTry fault place d dryRun now _) as [[r|msg] st'] eqn:H; simpl.
  - left. apply writeRulesTry_result in H. subst r. apply finalResult_ok.
  - right. now exists msg.
Qed.

(** X8.  A result of the orchestrator is either a success without error,
    or a failure that lists no file and carries an error message. *)
Theorem generateRules_result_shape
  (installed : bool) (analysisResult : AnalysisResult.t AnalysisData)
  (dryRun : bool) (now : string) (rulesDir : option Dir) :
  (success (fst (Index.generateRules fault place installed analysisResult dryRun now rulesDir)) = true /\
   error (fst (Index.generateRules fault place installed analysisResult dryRun now rulesDir)) = None) \/
  (exists msg,
      fst (Index.generateRules fault place installed analysisResult dryRun now rulesDir) =
      mk false [] [] [] (Some msg)).
Proof.
  unfold Index.generateRules, Index.failed.
  destruct installed; simpl; [|right; eauto].
  destruct (AnalysisResult.success (Index.fallback analysisResult)); simpl; [|right; eauto].
  destruct (AnalysisResult.data (Index.fallback analysisResult)); simpl; [|right; eauto].
  apply writeRules_shape.
Qed.

(** X9.  The orchestrator returns a failure and leaves the directory as it
    is when the agent is not installed, when the analysis failed without
    raw output, and when a successful analysis carries no data; the error is
    then, in this order, the fixed text about the agent, the error of the
    analysis (a fixed text when it has none), the fixed text about data. *)
Theorem generateRules_stops_early
  (installed : bool) (analysisResult : AnalysisResult.t AnalysisData)
  (dryRun : bool) (now : string) (rulesDir : option Dir) :
  (installed = false ->
   Index.generateRules fault place installed analysisResult dryRun now rulesDir =
     (mk false [] [] [] (Some "cursor-agent is not installed or not accessible in PATH"),
      rulesDir)) /\
  (installed = true ->
   AnalysisResult.success analysisResult = false ->
   AnalysisResult.rawOutput analysisResult = None \/
   AnalysisResult.rawOutput analysisResult = Some EmptyString ->
   Index.generateRules fault place installed analysisResult dryRun now rulesDir =
     (mk false [] [] []
         (Some (match AnalysisResult.error analysisResult with
                | Some (String c e) => String c e
                | _ => "Analysis failed"
                end)),
      rulesDir)) /\
  (installed = true ->
   AnalysisResult.success analysisResult = true ->
   AnalysisResult.data analysisResult = None ->
   Index.generateRules fault place installed analysisResult dryRun now rulesDir =
     (mk false [] [] [] (Some "No analysis data returned"), rulesDir)).
Proof.
  unfold Index.generateRules, Index.fallback, Index.failed.
  split; [now intros ->|]. split.
  - intros -> Hs Hraw. simpl. rewrite Hs. simpl.
    destruct Hraw as [-> | ->]; rewrite Hs; reflexivity.
  - intros -> Hs Hd. simpl. rewrite Hs. simpl. rewrite Hs. simpl. now rewrite Hd.
Qed.

(** A child that cannot be started gives the orchestrator no raw output to
    fall back on: it fails with the message of the invoker and leaves the
    directory as it is. *)
Example generateRules_spawn_error
  (message : string) (dryRun : bool) (now : string) (rulesDir : option Dir) :
  Index.generateRules fault place true (Analyzer.analyzeCodebaseError message)
                      dryRun now rulesDir =
    (mk false [] [] [] (Some ("Failed to execute cursor-agent: " ++ message)), rulesDir).
Proof. reflexivity. Qed.

(** X10.  A dry run of the orchestrator leaves the directory as it found
    it, whatever the agent answered and whichever operation fails. *)
Theorem generateRules_dryRun
  (installed : bool) (analysisResult : AnalysisResult.t AnalysisData)
  (now : string) (rulesDir : option Dir) :
  snd (Index.generateRules fault place installed analysisResult true now rulesDir) = rulesDir.
Proof.
  unfold Index.generateRules.
  destruct installed; simpl; [|reflexivity].
  destruct (AnalysisResult.success (Index.fallback analysisResult)); simpl; [|reflexivity].
  destruct (AnalysisResult.data (Index.fallback analysisResult)) as [d|]; simpl;
    [|reflexivity].
  unfold writeRules. rewrite writeRulesTry_dry. simpl.
  destruct (readExistingRules fault _) as [[E|msg] st1]; reflexivity.
Qed.

End OrchestratorFacts.

(* ================================================================= *)
(** ** The synchroniser beyond the claims *)

Section SynchroniserFacts.

Variable fault : Faults.
Variable place : Place.

Lemma target_entry_isRuleFile (entry : string * option RuleCategory.t)
      (t : string * string) :
  In t (target entry) -> isRuleFile (entryOf t) = true.
Proof.
  destruct entry as [k [c|]]; simpl; [|tauto].
  destruct (List.length (RuleCategory.rules c) =? 0)%nat; simpl; [tauto|].
  intros [<-|[]]. apply lastSegment_generateFilename.
Qed.

Lemma lookup_write_other (n f m : string) (D : Dir) :
  f <> n -> lookup n (write f m D) = lookup n D.
Proof.
  intros H. rewrite lookup_write. destruct (String.eqb_spec f n); [contradiction | reflexivity].
Qed.

Lemma processCategory_untouched (n : string) (dryRun : bool)
      (E : list ExistingRuleFile.t) (entry : string * option RuleCategory.t) (st : Store) :
  isRuleFile n = false ->
  lookup n (dirOf (disk (snd (processCategory fault place dryRun E entry st)))) =
  lookup n (dirOf (disk st)).
Proof.
  intros Hn. rewrite processCategory_run.
  pose proof (target_entry_isRuleFile entry) as Ht.
  destruct (target entry) as [|t ts]; [reflexivity|].
  specialize (Ht t (or_introl eq_refl)).
  assert (Hne : entryOf t <> n) by congruence.
  destruct (classify E (fst t) (snd t)); destruct dryRun; try reflexivity;
    (destruct (fault (writeFile (fst t))); [reflexivity|];
     destruct (inRulesDir place (fst t)); [|reflexivity];
     destruct (disk st) as [D|] eqn:Hd; simpl; rewrite ?Hd; [|reflexivity];
     simpl; now apply lookup_write_other).
Qed.

Lemma writeSummary_untouched (n : string) (dryRun : bool)
      (E : list ExistingRuleFile.t) (summary : string) (st : Store) :
  isRuleFile n = false ->
  lookup n (dirOf (disk (snd (writeSummary fault place dryRun E summary st)))) =
  lookup n (dirOf (disk st)).
Proof.
  intros Hn. rewrite writeSummary_run.
  assert (Hne : summaryFilename <> n) by (intros <-; discriminate).
  destruct (classifySummary E summary); destruct dryRun; try reflexivity;
    (destruct (fault (writeFile summaryFilename)); [reflexivity|];
     destruct (disk st) as [D|] eqn:Hd; simpl; rewrite ?Hd; [|reflexivity];
     simpl; now apply lookup_write_other).
Qed.

(** X11.  A pass never creates, changes or deletes a file whose name has
    no recognised extension, whether it is dry, runs to its end or
    aborts. *)
Theorem writeRules_leaves_other_files
  (d : AnalysisData) (dryRun : bool) (now : string) (rulesDir : option Dir) (n : string) :
  isRuleFile n = false ->
  lookup n (dirOf (snd (writeRules fault place d dryRun now rulesDir))) =
  lookup n (dirOf rulesDir).
Proof.
  intros Hn.
  assert (H : lookup n (dirOf (disk (snd (writeRulesTry fault place d dryRun now
                                           (mkStore rulesDir freshResult))))) =
              lookup n (dirOf rulesDir)).
  { rewrite writeRulesTry_unfold.
    destruct (ensure_step fault dryRun (mkStore rulesDir freshResult)) as (_ & Hd1 & _).
    simpl in Hd1. rewrite <- Hd1.
    destruct (unless dryRun _ _) as [[u|msg] st1]; [|reflexivity]. simpl.
    destruct (readExistingRules_run fault st1) as (Hs & _).
    destruct (readExistingRules fault st1) as [[E|msg] st1']; simpl in Hs; subst st1';
      [|reflexivity].
    assert (T2 : lookup n (dirOf (disk (snd (forEach (processCategory fault place dryRun E) d st1)))) =
                 lookup n (dirOf (disk st1))).
    { apply (forEach_preserves
               (fun st => lookup n (dirOf (disk st)) = lookup n (dirOf (disk st1))));
        [|reflexivity].
      intros entry st _ Hst. now rewrite processCategory_untouched. }
    destruct (forEach _ d st1) as [[u2|msg] st2]; [|exact T2]. simpl in T2.
    assert (T3 := writeSummary_untouched n dryRun E (createSummary d now) st2 Hn).
    rewrite T2 in T3.
    destruct (writeSummary _ _ _ _ _ st2) as [[u3|msg] st3]; [|exact T3]. simpl in T3.
    destruct (cleanupOldRules_frame fault (keepFilesOf (result st3)) dryRun st3)
      as (_ & _ & Hl).
    simpl in Hl. specialize (Hl n).
    rewrite <- T3.
    destruct (cleanupOldRules _ _ _ st3) as [[l|msg] st4]; simpl in *;
      apply Hl; unfold stale; rewrite Hn; apply andb_false_r. }
  unfold writeRules.
  destruct (writeRulesTry fault place d dryRun now _) as [[r|msg] st']; exact H.
Qed.

Lemma snapshot_none (D : Dir) :
  (forall n, In n (names D) -> isRuleFile n = false) -> snapshot D = [].
Proof.
  unfold snapshot. intros H.
  assert (Hf : filter isRuleFile (names D) = []).
  { induction (names D) as [|x l IH]; simpl in *; [reflexivity|].
    rewrite (H x) by auto. apply IH. auto. }
  now rewrite Hf.
Qed.

Lemma fold_record_created (ts : list (string * string)) :
  forall r,
    fold_left (record []) ts r =
    mk (success r) (created r ++ map fst ts)%list (updated r) (unchanged r) (error r).
Proof.
  induction ts as [|t ts IH]; intros r; simpl.
  - rewrite app_nil_r. now destruct r.
  - rewrite IH. unfold record. simpl. now rewrite <- app_assoc.
Qed.

(** X12.  On a directory that is missing or holds no file with a
    recognised extension, a pass that does not abort lists the file of
    every category with rules, in the order of the data, and then the
    summary, all as created. *)
Theorem writeRules_first_run
  (d : AnalysisData) (dryRun : bool) (now : string) (rulesDir : option Dir) :
  (forall n, In n (names (dirOf rulesDir)) -> isRuleFile n = false) ->
  success (fst (writeRules fault place d dryRun now rulesDir)) = true ->
  fst (writeRules fault place d dryRun now rulesDir) =
    mk true (map fst (targets d) ++ [summaryFilename])%list [] [] None.
Proof.
  intros Hnone. unfold writeRules.
  destruct (writeRulesTry fault place d dryRun now _) as [[r|msg] st'] eqn:H; simpl;
    [|discriminate].
  intros _. apply writeRulesTry_result in H. subst r.
  rewrite (snapshot_none _ Hnone). unfold finalResult.
  rewrite fold_record_created. reflexivity.
Qed.

Lemma keepFilesOf_push_perm (o : Outcome) (f : string) (r : RulesManagerResult.t) :
  Permutation (keepFilesOf (push o f r)) (keepFilesOf r ++ [f]).
Proof.
  unfold keepFilesOf. destruct o; simpl.
  - rewrite <- !app_assoc. apply Permutation_app_head.
    rewrite (app_assoc (updated r) (unchanged r) [f]).
    apply (Permutation_app_comm [f] (updated r ++ unchanged r)).
  - rewrite <- !app_assoc. apply Permutation_app_head, Permutation_app_head.
    apply (Permutation_app_comm [f] (unchanged r)).
  - rewrite !app_assoc. apply Permutation_refl.
Qed.

Lemma keepFilesOf_fold_perm (E : list ExistingRuleFile.t) (ts : list (string * string)) :
  forall r, Permutation (keepFilesOf (fold_left (record E) ts r))
                        (keepFilesOf r ++ map fst ts).
Proof.
  induction ts as [|t ts IH]; intros r; simpl.
  - rewrite app_nil_r. apply Permutation_refl.
  - eapply Permutation_trans; [apply IH|].
    unfold record. eapply Permutation_trans.
    + apply Permutation_app_tail. apply keepFilesOf_push_perm.
    + rewrite <- app_assoc. apply Permutation_refl.
Qed.

(** X13.  A pass that does not abort reports every category with rules
    exactly once and the summary exactly once: its three lists together
    are a rearrangement of the derived file names followed by the
    summary. *)
Theorem writeRules_lists_each_once
  (d : AnalysisData) (dryRun : bool) (now : string) (rulesDir : option Dir) :
  success (fst (writeRules fault place d dryRun now rulesDir)) = true ->
  Permutation
    (created (fst (writeRules fault place d dryRun now rulesDir)) ++
     updated (fst (writeRules fault place d dryRun now rulesDir)) ++
     unchanged (fst (writeRules fault place d dryRun now rulesDir)))
    (map fst (targets d) ++ [summaryFilename]).
Proof.
  unfold writeRules.
  destruct (writeRulesTry fault place d dryRun now _) as [[r|msg] st'] eqn:H; simpl;
    [|discriminate].
  intros _. apply writeRulesTry_result in H. subst r.
  set (E := snapshot (dirOf rulesDir)).
  fold (keepFilesOf (finalResult E d now)). unfold finalResult.
  set (r0 := fold_left (record E) (targets d) freshResult).
  assert (Hr0 : Permutation (keepFilesOf r0) (map fst (targets d))).
  { apply (keepFilesOf_fold_perm E (targets d) freshResult). }
  assert (Hno : existsb (String.eqb summaryFilename) (unchanged r0) = false).
  { destruct (existsb _ _) eqn:Hx; [|reflexivity]. exfalso.
    apply existsb_exists in Hx. destruct Hx as (y & Hy & Heq).
    apply String.eqb_eq in Heq. subst y.
    assert (Hin : In summaryFilename (keepFilesOf r0)).
    { unfold keepFilesOf. rewrite !in_app_iff. tauto. }
    apply (Permutation_in _ Hr0) in Hin. apply target_name in Hin.
    destruct Hin as [k Hk]. symmetry in Hk. now apply generateFilename_summary in Hk. }
  assert (Hpush : forall o, Permutation (keepFilesOf (push o summaryFilename r0))
                                        (map fst (targets d) ++ [summaryFilename])).
  { intros o. eapply Permutation_trans; [apply keepFilesOf_push_perm|].
    now apply Permutation_app_tail. }
  unfold recordSummary. rewrite Hno. destruct (classifySummary E _); apply Hpush.
Qed.

(** X14.  When no operation of the file system fails, a pass that is not
    dry runs to its end on any directory, missing or not, and leaves a
    directory behind. *)
Theorem writeRules_completes
  (d : AnalysisData) (now : string) (rulesDir : option Dir) :
  (forall op, fault op = None) ->
  NoDup (names (dirOf rulesDir)) ->
  success (fst (writeRules fault place d false now rulesDir)) = true /\
  error (fst (writeRules fault place d false now rulesDir)) = None /\
  snd (writeRules fault place d false now rulesDir) <> None.
Proof.
  intros Hf Hnd. unfold writeRules.
  rewrite (writeRulesTry_exact fault place d now rulesDir Hf Hnd). simpl.
  destruct (finalResult_ok (snapshot (dirOf rulesDir)) d now) as [-> ->].
  repeat split. discriminate.
Qed.

(** X15.  After a pass without failure over data whose categories derive
    different file names that hold no path separator, in a directory whose
    names are exact for the names looked up, every document of the pass
    (each category file and the summary) has a file of its name that needs
    no update against it. *)
Theorem writeRules_settles
  (d : AnalysisData) (now : string) (rulesDir : option Dir) (f m : string) :
  (forall op, fault op = None) ->
  NoDup (names (dirOf rulesDir)) ->
  NoDup (map fst (targets d)) ->
  plainNames (map fst (targets d)) ->
  exactNames (dirOf rulesDir) (summaryFilename :: map fst (targets d)) ->
  In (f, m) (documents d now) ->
  exists c, lookup f (dirOf (snd (writeRules fault place d false now rulesDir))) = Some c /\
            needsUpdate c m = false.
Proof.
  intros Hf Hnd Hts Hpl Hex Hin. unfold writeRules.
  rewrite (writeRulesTry_exact fault place d now rulesDir Hf Hnd). simpl.
  now apply finalDir_settled.
Qed.

Lemma sweep_names (keepFiles : list string) (D : Dir) (n : string) :
  In n (names (sweep keepFiles D)) -> In n (names D) /\ stale keepFiles n = false.
Proof.
  unfold sweep, names. rewrite !in_map_iff. intros (e & <- & He).
  apply filter_In in He. destruct He as [He Hs]. apply negb_true_iff in Hs.
  split; [exists e; auto | exact Hs].
Qed.

(** X16.  After a pass without failure, every file with a recognised
    extension left in the directory is, up to case, the summary or the
    file of a category with rules: the files of categories that are gone
    have been deleted. *)
Theorem writeRules_leaves_no_stale_file
  (d : AnalysisData) (now : string) (rulesDir : option Dir) (n : string) :
  (forall op, fault op = None) ->
  NoDup (names (dirOf rulesDir)) ->
  In n (names (dirOf (snd (writeRules fault place d false now rulesDir)))) ->
  isRuleFile n = true ->
  exists f, In f (summaryFilename :: map fst (targets d)) /\
            toLowerCase n = toLowerCase f.
Proof.
  intros Hf Hnd Hin Hrule. unfold writeRules in Hin.
  rewrite (writeRulesTry_exact fault place d now rulesDir Hf Hnd) in Hin. simpl in Hin.
  unfold finalDir in Hin. apply sweep_names in Hin. destruct Hin as [_ Hs].
  unfold stale, lowerIn in Hs. rewrite Hrule, andb_true_r in Hs.
  apply negb_false_iff, existsb_exists in Hs. destruct Hs as (x & Hx & Heq).
  apply String.eqb_eq in Heq. apply in_map_iff in Hx. destruct Hx as (f & <- & Hfin).
  apply finalResult_members in Hfin. exists f. split; [|exact Heq].
  destruct Hfin as [->|Hfin]; [now left | now right].
Qed.

Lemma fold_store_unchanged (E : list ExistingRuleFile.t) (ts : list (string * string)) :
  (forall t, In t ts -> classify E (fst t) (snd t) = Unchanged) ->
  forall D, fold_left (store place E) ts D = D.
Proof.
  induction ts as [|t ts IH]; intros Hu D; simpl; [reflexivity|].
  unfold store at 2. rewrite (Hu t) by auto with datatypes.
  apply IH. auto with datatypes.
Qed.

Lemma stale_ext (k1 k2 : list string) (n : string) :
  (forall x, In x k1 <-> In x k2) -> stale k1 n = stale k2 n.
Proof.
  intros H. unfold stale, lowerIn. f_equal. f_equal.
  apply eq_true_iff_eq. rewrite !existsb_exists.
  split; intros (x & Hx & Heq); exists x; (split; [|exact Heq]);
    apply in_map_iff in Hx; destruct Hx as (y & <- & Hy); apply in_map; now apply H.
Qed.

Lemma sweep_fixed (keepFiles : list string) (D : Dir) :
  (forall n, In n (names D) -> stale keepFiles n = false) -> sweep keepFiles D = D.
Proof.
  unfold sweep. induction D as [|[x c] D IH]; simpl; intros H; [reflexivity|].
  rewrite (H x) by auto. simpl. f_equal. apply IH. auto.
Qed.

Lemma filter_none {A : Type} (p : A -> bool) (l : list A) :
  (forall x, In x l -> p x = false) -> filter p l = [].
Proof.
  induction l as [|x l IH]; simpl; intros H; [reflexivity|].
  rewrite (H x) by auto. apply IH. auto.
Qed.

(** X17.  Under the conditions of the two-pass property (no failure,
    derived file names that are pairwise different and hold no path
    separator, names of the directory exact for the names looked up), the
    second pass leaves the directory of the first as it is, but for the
    summary, which it may rewrite with the summary of the second pass: no
    category file is written or deleted again. *)
Theorem writeRules_second_pass_disk
  (d : AnalysisData) (now1 now2 : string) (rulesDir : option Dir) :
  (forall op, fault op = None) ->
  NoDup (names (dirOf rulesDir)) ->
  NoDup (map fst (targets d)) ->
  plainNames (map fst (targets d)) ->
  exactNames (dirOf rulesDir) (summaryFilename :: map fst (targets d)) ->
  exists D,
    snd (writeRules fault place d false now1 rulesDir) = Some D /\
    (snd (writeRules fault place d false now2 (Some D)) = Some D \/
     snd (writeRules fault place d false now2 (Some D)) =
       Some (write summaryFilename (createSummary d now2) D)).
Proof.
  intros Hf Hnd Hts Hpl Hex.
  unfold writeRules at 1.
  rewrite (writeRulesTry_exact fault place d now1 rulesDir Hf Hnd). cbn [snd disk].
  pose proof (writeRulesTry_tracked fault place d false now1 rulesDir) as [Hframe _].
  rewrite (writeRulesTry_exact fault place d now1 rulesDir Hf Hnd) in Hframe.
  cbn [snd disk dirOf] in Hframe.
  set (D0 := dirOf rulesDir) in *.
  set (D1 := finalDir place (snapshot D0) d now1 D0) in *.
  exists D1. split; [reflexivity|].
  assert (Hnd1 : NoDup (names D1)).
  { unfold D1, finalDir, sweep. apply NoDup_filter_names. unfold storeSummary.
    destruct (classifySummary _ _); auto using NoDup_write, NoDup_fold_store. }
  assert (Hex1 : exactNames D1 (summaryFilename :: map fst (targets d))).
  { intros n f Hn Hfin Heq. destruct (Hframe n Hn) as [H0|HW].
    - now apply Hex.
    - apply (lookedUp_exact d); [|exact Hfin|exact Heq].
      unfold documents in HW. cbn [map] in HW.
      rewrite (entries_plain _ Hpl) in HW. exact HW. }
  assert (Hcls : forall t, In t (targets d) ->
                           classify (snapshot D1) (fst t) (snd t) = Unchanged).
  { intros [f m] Ht. cbn [fst snd].
    destruct (finalDir_settled place d now1 D0 f m Hpl Hts Hex (or_intror Ht))
      as (c & Hc & Hu).
    fold D1 in Hc.
    assert (Hin : In f (summaryFilename :: map fst (targets d))).
    { right. change f with (fst (f, m)). now apply in_map. }
    rewrite classify_snapshot.
    - now rewrite Hc, Hu.
    - intros n Hn. now apply Hex1.
    - now apply (lookedUp_isRuleFile d). }
  assert (Hkeep : forall n, In n (names D1) ->
                            stale (keepFilesOf (finalResult (snapshot D1) d now2)) n = false).
  { intros n Hn. unfold D1, finalDir in Hn. apply sweep_names in Hn.
    destruct Hn as [_ Hs]. rewrite <- Hs. apply stale_ext.
    intros x. rewrite !finalResult_members. reflexivity. }
  unfold writeRules.
  rewrite (writeRulesTry_exact fault place d now2 (Some D1) Hf Hnd1). cbn [snd disk dirOf].
  unfold finalDir. rewrite (fold_store_unchanged _ _ Hcls). unfold storeSummary.
  destruct (classifySummary (snapshot D1) (createSummary d now2));
    [right | right | left]; f_equal; apply sweep_fixed; try exact Hkeep;
    (intros n Hn; apply In_names_write in Hn; destruct Hn as [->|Hn];
     [apply stale_kept, finalResult_members; now left | now apply Hkeep]).
Qed.

(** X18.  What [readExistingRules] returns when it does not throw: the
    files with a recognised extension, in the order of the directory, each
    with the content it has; it changes nothing; and a missing directory
    gives the empty list without any reading. *)
Theorem readExistingRules_reads
  (st st' : Store) (existingRules : list ExistingRuleFile.t) :
  readExistingRules fault st = (inl existingRules, st') ->
  st' = st /\
  map ExistingRuleFile.filename existingRules =
    filter isRuleFile (names (dirOf (disk st))) /\
  (forall e, In e existingRules ->
             lookup (ExistingRuleFile.filename e) (dirOf (disk st)) =
             Some (ExistingRuleFile.content e)) /\
  (disk st = None -> existingRules = []).
Proof.
  intros H. destruct (readExistingRules_run fault st) as (Hs & HE & _).
  rewrite H in Hs, HE. simpl in Hs, HE. destruct (HE _ eq_refl) as [-> _].
  split; [exact Hs|]. unfold snapshot. split.
  - rewrite map_map. simpl. apply map_id.
  - split.
    + intros e He. apply in_map_iff in He. destruct He as (n & <- & Hn). simpl.
      apply filter_In in Hn. destruct Hn as [Hn _].
      unfold contentOf. destruct (lookup_In n _ Hn) as [c ->]. reflexivity.
    + intros Hd. rewrite Hd. reflexivity.
Qed.

(** X19.  Cleaning up twice is cleaning up once: after a cleanup without
    failure, a second cleanup with the same names to keep deletes nothing
    and leaves the directory as it is. *)
Theorem cleanupOldRules_idempotent
  (keepFiles : list string) (D : Dir) (r : RulesManagerResult.t)
  (removed : list string) (st1 : Store) :
  fault readdir = None -> (forall n, fault (unlink n) = None) ->
  NoDup (names D) ->
  cleanupOldRules fault keepFiles false (mkStore (Some D) r) = (inl removed, st1) ->
  cleanupOldRules fault keepFiles false st1 = (inl [], st1).
Proof.
  intros Hr Hu Hnd H.
  rewrite (cleanupOldRules_exact fault keepFiles (mkStore (Some D) r) D Hr Hu eq_refl Hnd) in H.
  injection H as _ <-. simpl.
  assert (Hnd' : NoDup (names (sweep keepFiles D))).
  { unfold sweep. now apply NoDup_filter_names. }
  rewrite (cleanupOldRules_exact fault keepFiles (mkStore (Some (sweep keepFiles D)) r)
             (sweep keepFiles D) Hr Hu eq_refl Hnd').
  simpl. rewrite filter_none, sweep_fixed; try reflexivity;
    intros n Hn; now apply sweep_names in Hn.
Qed.

(** X20.  Whether it is dry, runs to its end or aborts at a deletion, the
    cleanup adds no file, leaves [result] alone and leaves alone every file
    that is not stale, so every file to keep and every file without a
    recognised extension; a dry run changes nothing at all, and so does any
    run on a missing directory, which returns the empty list. *)
Theorem cleanupOldRules_touches_only_stale
  (keepFiles : list string) (dryRun : bool) (st : Store) (n : string) :
  result (snd (cleanupOldRules fault keepFiles dryRun st)) = result st /\
  (In n (names (dirOf (disk (snd (cleanupOldRules fault keepFiles dryRun st))))) ->
   In n (names (dirOf (disk st)))) /\
  (In n keepFiles \/ isRuleFile n = false ->
   lookup n (dirOf (disk (snd (cleanupOldRules fault keepFiles dryRun st)))) =
   lookup n (dirOf (disk st))) /\
  (dryRun = true -> snd (cleanupOldRules fault keepFiles dryRun st) = st) /\
  (disk st = None -> cleanupOldRules fault keepFiles dryRun st = (inl [], st)).
Proof.
  destruct (cleanupOldRules_frame fault keepFiles dryRun st) as (Hr & Hsub & Hl).
  simpl in Hr, Hsub, Hl.
  split; [exact Hr|]. split; [apply Hsub|]. split.
  - intros [Hk|Hk]; apply Hl; [now apply stale_kept|].
    unfold stale. rewrite Hk. apply andb_false_r.
  - split.
    + intros ->. rewrite cleanupOldRules_dry.
      destruct (disk st); [destruct (fault readdir)|]; reflexivity.
    + intros Hd. unfold cleanupOldRules, bind, existsSync. rewrite Hd. reflexivity.
Qed.

(** X21.  [ensureRulesDirectory] never touches the content of a directory
    that exists, calls [mkdir] only for a missing one, succeeds exactly
    when a directory is there afterwards, and has nothing left to do when
    it runs again after a success. *)
Theorem ensureRulesDirectory_ensures (st : Store) :
  dirOf (disk (snd (ensureRulesDirectory fault st))) = dirOf (disk st) /\
  result (snd (ensureRulesDirectory fault st)) = result st /\
  (fst (ensureRulesDirectory fault st) = inl tt <->
   disk (snd (ensureRulesDirectory fault st)) <> None) /\
  (disk st <> None -> ensureRulesDirectory fault st = (inl tt, st)) /\
  (fst (ensureRulesDirectory fault st) = inl tt ->
   ensureRulesDirectory fault (snd (ensureRulesDirectory fault st)) =
     (inl tt, snd (ensureRulesDirectory fault st))).
Proof.
  pose proof (ensureRulesDirectory_run fault st) as H.
  destruct (disk st) as [D|] eqn:Hd.
  - rewrite H. simpl. rewrite Hd.
    split; [reflexivity|]. split; [reflexivity|].
    split; [split; [discriminate | reflexivity]|].
    split; [reflexivity | intros _; exact H].
  - destruct (fault mkdir) as [msg|] eqn:Hm; rewrite H; simpl; rewrite ?Hd.
    + split; [reflexivity|]. split; [reflexivity|].
      split; [split; [discriminate | congruence]|].
      split; [congruence | discriminate].
    + split; [reflexivity|]. split; [reflexivity|].
      split; [split; [discriminate | reflexivity]|].
      split; [congruence|]. intros _. now rewrite ensureRulesDirectory_run.
Qed.

End SynchroniserFacts.

(* ================================================================= *)
(** ** The further properties at sample inputs *)

Lemma needsUpdate_ignores_margins_witness :
  normalize ((" " ++ LF) ++ "a b" ++ LF) = normalize "a b" /\
  needsUpdate ((" " ++ LF) ++ "a b" ++ LF) "a b" = false.
Proof.
  apply (needsUpdate_ignores_margins (" " ++ LF) LF "a b"); reflexivity.
Defined.

Lemma writeRules_leaves_other_files_witness :
  lookup "notes.json"
    (dirOf (snd (writeRules noFaults lexical frameworks false monday
                   (Some [("notes.json", "x"); ("old.md", "y")])))) =
  lookup "notes.json" (dirOf (Some [("notes.json", "x"); ("old.md", "y")])).
Proof.
  apply (writeRules_leaves_other_files noFaults lexical frameworks false monday
           (Some [("notes.json", "x"); ("old.md", "y")]) "notes.json").
  reflexivity.
Defined.

Lemma writeRules_first_run_witness :
  fst (writeRules noFaults lexical frameworks false monday (Some [("notes.json", "x")])) =
    mk true (map fst (targets frameworks) ++ [summaryFilename])%list [] [] None.
Proof.
  apply (writeRules_first_run noFaults lexical frameworks false monday
           (Some [("notes.json", "x")])).
  - intros n [<-|[]]. reflexivity.
  - reflexivity.
Defined.

Lemma writeRules_lists_each_once_witness :
  Permutation
    (created (fst (writeRules noFaults lexical frameworks false tuesday
                     (Some [("frameworks.mdc", "old")]))) ++
     updated (fst (writeRules noFaults lexical frameworks false tuesday
                     (Some [("frameworks.mdc", "old")]))) ++
     unchanged (fst (writeRules noFaults lexical frameworks false tuesday
                       (Some [("frameworks.mdc", "old")]))))
    (map fst (targets frameworks) ++ [summaryFilename]).
Proof.
  apply (writeRules_lists_each_once noFaults lexical frameworks false tuesday
           (Some [("frameworks.mdc", "old")])).
  reflexivity.
Defined.

Lemma writeRules_completes_witness :
  success (fst (writeRules noFaults lexical frameworks false monday None)) = true /\
  error (fst (writeRules noFaults lexical frameworks false monday None)) = None /\
  snd (writeRules noFaults lexical frameworks false monday None) <> None.
Proof.
  apply (writeRules_completes noFaults lexical frameworks monday None).
  - intros op. reflexivity.
  - constructor.
Defined.

Lemma writeRules_settles_witness :
  exists c,
    lookup "frameworks.mdc"
      (dirOf (snd (writeRules noFaults lexical frameworks false monday
                     (Some [("frameworks.mdc", "old")])))) = Some c /\
    needsUpdate c (convertToMDC "frameworks" (withRules "Frameworks" [rule "R1" "D1"])) = false.
Proof.
  apply (writeRules_settles noFaults lexical frameworks monday
           (Some [("frameworks.mdc", "old")]) "frameworks.mdc"
           (convertToMDC "frameworks" (withRules "Frameworks" [rule "R1" "D1"]))).
  - intros op. reflexivity.
  - repeat constructor. intros [].
  - vm_compute. constructor; [intros [] | constructor].
  - intros f Hin. vm_compute in Hin. destruct Hin as [<-|[]]. reflexivity.
  - intros n f [<-|[]] Hf Heq. vm_compute in Hf.
    destruct Hf as [<-|[<-|[]]]; [vm_compute in Heq; discriminate | reflexivity].
  - right. left. reflexivity.
Defined.

Lemma writeRules_leaves_no_stale_file_witness :
  exists f, In f (summaryFilename :: map fst (targets frameworks)) /\
            toLowerCase "frameworks.mdc" = toLowerCase f.
Proof.
  apply (writeRules_leaves_no_stale_file noFaults lexical frameworks monday
           (Some [("old.mdc", "x"); ("frameworks.mdc", "y")]) "frameworks.mdc").
  - intros op. reflexivity.
  - repeat constructor; simpl; intuition discriminate.
  - vm_compute. left. reflexivity.
  - reflexivity.
Defined.

Lemma writeRules_second_pass_disk_witness :
  exists D,
    snd (writeRules noFaults lexical frameworks false monday None) = Some D /\
    (snd (writeRules noFaults lexical frameworks false tuesday (Some D)) = Some D \/
     snd (writeRules noFaults lexical frameworks false tuesday (Some D)) =
       Some (write summaryFilename (createSummary frameworks tuesday) D)).
Proof.
  apply (writeRules_second_pass_disk noFaults lexical frameworks monday tuesday None).
  - intros op. reflexivity.
  - constructor.
  - vm_compute. constructor; [intros [] | constructor].
  - intros f Hin. vm_compute in Hin. destruct Hin as [<-|[]]. reflexivity.
  - intros n f [].
Defined.

Lemma readExistingRules_reads_witness :
  mkStore (Some [("a.md", "x"); ("b.json", "y")]) freshResult =
    mkStore (Some [("a.md", "x"); ("b.json", "y")]) freshResult /\
  map ExistingRuleFile.filename [ExistingRuleFile.mk "a.md" "x"] =
    filter isRuleFile (names (dirOf (Some [("a.md", "x"); ("b.json", "y")]))) /\
  (forall e, In e [ExistingRuleFile.mk "a.md" "x"] ->
             lookup (ExistingRuleFile.filename e)
                    (dirOf (Some [("a.md", "x"); ("b.json", "y")])) =
             Some (ExistingRuleFile.content e)) /\
  (Some [("a.md", "x"); ("b.json", "y")] = None -> [ExistingRuleFile.mk "a.md" "x"] = []).
Proof.
  apply (readExistingRules_reads noFaults
           (mkStore (Some [("a.md", "x"); ("b.json", "y")]) freshResult)
           (mkStore (Some [("a.md", "x"); ("b.json", "y")]) freshResult)
           [ExistingRuleFile.mk "a.md" "x"]).
  reflexivity.
Defined.

Lemma cleanupOldRules_idempotent_witness :
  cleanupOldRules noFaults ["keep.mdc"] false
    (mkStore (Some [("keep.mdc", "y")]) freshResult) =
  (inl [], mkStore (Some [("keep.mdc", "y")]) freshResult).
Proof.
  apply (cleanupOldRules_idempotent noFaults ["keep.mdc"]
           [("old.md", "x"); ("keep.mdc", "y")] freshResult ["old.md"]
           (mkStore (Some [("keep.mdc", "y")]) freshResult)).
  - reflexivity.
  - intros n. reflexivity.
  - repeat constructor; simpl; intuition discriminate.
  - reflexivity.
Defined.
